(** * The issue-processing pipeline of the Slack auto-fix bot

    A shallow embedding of [processIssue] (the orchestrator), of
    [GitAutomationService] and of [SlackService], together with the
    properties of the pipeline that the specification states.

    - JavaScript strings are sequences of UTF-16 code units ([jsstring]).
    - Every call that leaves the repository's own code (the Slack
      [WebClient], [simple-git], [fs], and the services whose source is not
      part of the modelled files) is a node of a program tree ([Prog]);
      an environment answers each call, knowing the calls made so far, with
      a returned value or a thrown exception.
    - [this.git] and the two [let] variables of [processIssue] are threaded
      as explicit state; [try]/[catch] is [try_catch].
    - Calls to [logger] are not modelled: they return nothing and the
      pipeline never reads them back. *)

From Stdlib Require Import List Bool Arith NArith Lia Ascii String.
From Stdlib Require Import DecimalString.
Import ListNotations.

Set Implicit Arguments.

(** ** JavaScript strings *)

Module Js.

(** A string is the list of its UTF-16 code units. *)
Definition jsstring := list N.

Definition code_eqb (a b : N) : bool := N.eqb a b.

Fixpoint eqb (s t : jsstring) : bool :=
  match s, t with
  | [], [] => true
  | a :: s', b :: t' => code_eqb a b && eqb s' t'
  | _, _ => false
  end.

(** Decoding of the UTF-8 bytes of a literal of this file into UTF-16. *)
Definition cont (b : N) : N := N.land b 63.

Definition utf16_of_codepoint (cp : N) : jsstring :=
  if (cp <? 65536)%N then [cp]
  else let c := (cp - 65536)%N in
       [(55296 + N.shiftr c 10)%N; (56320 + N.land c 1023)%N].

Fixpoint decode (fuel : nat) (bs : list N) : jsstring :=
  match fuel with
  | O => []
  | S fuel' =>
    match bs with
    | [] => []
    | b0 :: r0 =>
      if (b0 <? 128)%N then b0 :: decode fuel' r0
      else if (b0 <? 224)%N then
        match r0 with
        | b1 :: r1 =>
          utf16_of_codepoint (N.shiftl (N.land b0 31) 6 + cont b1) ++ decode fuel' r1
        | _ => [65533%N]
        end
      else if (b0 <? 240)%N then
        match r0 with
        | b1 :: b2 :: r2 =>
          utf16_of_codepoint
            (N.shiftl (N.land b0 15) 12 + N.shiftl (cont b1) 6 + cont b2)
            ++ decode fuel' r2
        | _ => [65533%N]
        end
      else
        match r0 with
        | b1 :: b2 :: b3 :: r3 =>
          utf16_of_codepoint
            (N.shiftl (N.land b0 7) 18 + N.shiftl (cont b1) 12
             + N.shiftl (cont b2) 6 + cont b3)
            ++ decode fuel' r3
        | _ => [65533%N]
        end
    end
  end.

Definition bytes_of (s : string) : list N :=
  map N_of_ascii (list_ascii_of_string s).

(** [lit "..."] is the JavaScript string written by that literal. *)
Definition lit (s : string) : jsstring :=
  decode (String.length s) (bytes_of s).

(** The line feed of [\n] in a JavaScript literal. *)
Definition nl : jsstring := [10%N].

(** [s.length], [s.substring(0, n)] and concatenation. *)
Definition length (s : jsstring) : nat := List.length s.
Definition substring0 (n : nat) (s : jsstring) : jsstring := firstn n s.

(** [s.startsWith(p)] gives the rest of [s] when it holds. *)
Fixpoint strip_prefix (p s : jsstring) : option jsstring :=
  match p, s with
  | [], _ => Some s
  | a :: p', b :: s' => if code_eqb a b then strip_prefix p' s' else None
  | _ :: _, [] => None
  end.

Definition starts_with (p s : jsstring) : bool :=
  match strip_prefix p s with Some _ => true | None => false end.

(** [s.includes(p)]: [p] occurs at some position of [s]. *)
Fixpoint includes (p s : jsstring) : bool :=
  starts_with p s ||
  match s with
  | [] => false
  | _ :: s' => includes p s'
  end.

(** A value used as a condition: [undefined] and [''] are falsy. *)
Definition truthy (o : option jsstring) : bool :=
  match o with
  | Some (_ :: _) => true
  | _ => false
  end.

(** [a || b] on an optional string. *)
Definition or_else (o : option jsstring) (d : jsstring) : jsstring :=
  match o with
  | Some (c :: s) => c :: s
  | _ => d
  end.

(** A value interpolated into a template literal. *)
Definition show (o : option jsstring) : jsstring :=
  match o with
  | Some s => s
  | None => lit "undefined"
  end.

(** A non-negative integer interpolated into a template literal. *)
Definition show_nat (n : nat) : jsstring :=
  lit (NilEmpty.string_of_uint (Nat.to_uint n)).

(** [xs.join(sep)]. *)
Fixpoint join (sep : jsstring) (xs : list jsstring) : jsstring :=
  match xs with
  | [] => []
  | [x] => x
  | x :: rest => x ++ sep ++ join sep rest
  end.

(** The character classes of the regular expressions of the source. *)
Definition is_lower (c : N) : bool := (97 <=? c)%N && (c <=? 122)%N.
Definition is_digit (c : N) : bool := (48 <=? c)%N && (c <=? 57)%N.
Definition is_hyphen (c : N) : bool := (c =? 45)%N.

(** [\s]: the white space and line terminator code units of ECMAScript. *)
Definition is_space (c : N) : bool :=
  ((9 <=? c)%N && (c <=? 13)%N) || (c =? 32)%N || (c =? 160)%N
  || (c =? 5760)%N || ((8192 <=? c)%N && (c <=? 8202)%N)
  || (c =? 8232)%N || (c =? 8233)%N || (c =? 8239)%N || (c =? 8287)%N
  || (c =? 12288)%N || (c =? 65279)%N.

End Js.

Import Js.

Example lit_ascii : lit "fix/" = [102; 105; 120; 47]%N.
Proof. reflexivity. Qed.

Example lit_recycle : lit "♻️ Refactor:" =
  ([9851; 65039; 32; 82; 101; 102; 97; 99; 116; 111; 114; 58])%N.
Proof. reflexivity. Qed.

Example lit_bug : lit "🐛" = [55357; 56347]%N.
Proof. reflexivity. Qed.

Example show_nat_12 : show_nat 12 = lit "12".
Proof. reflexivity. Qed.

(** ** The records of [types/index.ts] *)

Module CodeFix.
Record t := mk {
  path : jsstring;
  description : jsstring;
  newContent : option jsstring;
  originalContent : option jsstring }.
End CodeFix.

Module FixResult.
Record t := mk {
  success : bool;
  analysis : jsstring;
  solution : jsstring;
  filesChanged : list jsstring;
  fixes : list CodeFix.t;
  error : option jsstring }.
End FixResult.

Module ClaudeAgentConfig.
Record t := mk {
  systemPrompt : jsstring;
  repoPath : jsstring;
  allowedTools : option (list jsstring);
  maxTokens : option N }.
End ClaudeAgentConfig.

Module GitBranchResult.
Record t := mk {
  success : bool;
  branchName : option jsstring;
  error : option jsstring }.
End GitBranchResult.

Module GitCommitResult.
Record t := mk {
  success : bool;
  hash : option jsstring;
  branch : option jsstring;
  error : option jsstring }.
End GitCommitResult.

Module GitHubPRResult.
Record t := mk {
  success : bool;
  prNumber : option N;
  prUrl : option jsstring;
  error : option jsstring }.
End GitHubPRResult.

Inductive ReadyState := READY | ERROR | BUILDING | QUEUED | CANCELED.

Module DeploymentResult.
Record t := mk {
  success : bool;
  url : option jsstring;
  deploymentId : option jsstring;
  status : option ReadyState;
  error : option jsstring }.
End DeploymentResult.

Module IssueJob.
Record t := mk {
  id : jsstring;
  text : jsstring;
  channel : jsstring;
  threadTs : jsstring;
  userId : jsstring;
  timestamp : N;
  retryCount : option N }.
End IssueJob.

Inductive JobStatus := pending | processing | completed | failed.

Module JobResult.
Record t := mk {
  jobId : jsstring;
  status : JobStatus;
  branchName : option jsstring;
  prUrl : option jsstring;
  previewUrl : option jsstring;
  result : option FixResult.t;
  deployment : option DeploymentResult.t;
  error : option jsstring }.
End JobResult.

Inductive BranchNamingStrategy := fix_ | feat | refactor | chore.

Definition type_name (t : BranchNamingStrategy) : jsstring :=
  match t with
  | fix_ => lit "fix"
  | feat => lit "feat"
  | refactor => lit "refactor"
  | chore => lit "chore"
  end.

Module BranchOptions.
Record t := mk {
  type : BranchNamingStrategy;
  description : jsstring;
  baseBranch : option jsstring }.
End BranchOptions.

(** The part of [config.github] that the services read, with the
    [repoPath] that the constructor of [GitAutomationService] fixes. *)
Module Config.
Record t := mk {
  token : jsstring;
  username : jsstring;
  targetRepoUrl : jsstring;
  baseBranch : jsstring;
  repoPath : jsstring }.
End Config.

(** ** Thrown values *)

(** What [throw] raises: an [Error] with its message, or any other value
    with the string that [String(value)] gives. *)
Inductive exn :=
| JsError (message : jsstring)
| JsValue (str : jsstring).

(** [error instanceof Error ? error.message : String(error)]. *)
Definition error_text (e : exn) : jsstring :=
  match e with
  | JsError m => m
  | JsValue s => s
  end.

Inductive outcome (A : Type) :=
| Returns (a : A)
| Throws (e : exn).
Arguments Throws {A} e.

(** ** Calls that leave the repository's code *)

Module Resp.
Record ChatPostMessage := mkPost {
  post_ok : bool;
  post_ts : option jsstring;
  post_error : option jsstring }.
Record ChatUpdate := mkUpdate {
  update_ok : bool;
  update_error : option jsstring }.
Record Status := mkStatus {
  files : list jsstring;
  current : option jsstring }.
Record Commit := mkCommit {
  commit : jsstring }.
End Resp.

Inductive Call : Type :=
(* @slack/web-api *)
| ChatPostMessage (channel text : jsstring) (thread_ts : option jsstring)
| ChatUpdate (channel ts text : jsstring)
| ReactionsAdd (channel timestamp name : jsstring)
(* fs/promises *)
| FsAccess (path : jsstring)
| FsMkdir (path : jsstring)
(* simple-git *)
| GitClone (url path : jsstring)
| GitOpen (baseDir : jsstring)
| GitCheckout (branch : jsstring)
| GitPull (remote branch : jsstring)
| GitDeleteLocalBranch (branch : jsstring) (force : bool)
| GitCheckoutLocalBranch (branch : jsstring)
| GitAdd (files : list jsstring)
| GitAddAll
| GitStatus
| GitCommit (message : jsstring)
| GitAddConfig (key value : jsstring)
| GitPush (args : list jsstring)
(* services of the repository whose source is not modelled *)
| AnalyzeAndFix (text : jsstring) (config : ClaudeAgentConfig.t)
| FormatPRDescription (analysis solution : jsstring) (files : list jsstring)
| CreatePullRequest (branch title body : jsstring)
| AddLabels (prNumber : N) (labels : list jsstring)
| WaitForDeployment (branch : jsstring) (timeoutMinutes : N).

(** What each call gives back when it does not throw. *)
Definition resp (c : Call) : Type :=
  match c with
  | ChatPostMessage _ _ _ => Resp.ChatPostMessage
  | ChatUpdate _ _ _ => Resp.ChatUpdate
  | GitStatus => Resp.Status
  | GitCommit _ => Resp.Commit
  | AnalyzeAndFix _ _ => FixResult.t
  | FormatPRDescription _ _ _ => jsstring
  | CreatePullRequest _ _ _ => GitHubPRResult.t
  | WaitForDeployment _ _ => DeploymentResult.t
  | _ => unit
  end.

(** ** Programs *)

Inductive Prog (R : Type) : Type :=
| Ret (r : R)
| Do (c : Call) (k : outcome (resp c) -> Prog R).
Arguments Ret {R} r.
Arguments Do {R} c k.

Fixpoint pbind {A B : Type} (p : Prog A) (f : A -> Prog B) : Prog B :=
  match p with
  | Ret a => f a
  | Do c k => Do c (fun o => pbind (k o) f)
  end.

(** The environment: its answer to a call may depend on the calls made
    before it (in the order they were made). *)
Definition Env := forall c : Call, list Call -> outcome (resp c).

Fixpoint run {R : Type} (env : Env) (p : Prog R) (tr : list Call) : R * list Call :=
  match p with
  | Ret r => (r, tr)
  | Do c k => run env (k (env c tr)) (tr ++ [c])
  end.

(** The mutable state: the [git] field of the [GitAutomationService]
    singleton ([null] until [initializeRepo] sets it; the client is known
    by its [baseDir]), and the two [let] variables of [processIssue]. *)
Record Store := mkStore {
  git : option jsstring;
  statusMessageTs : option jsstring;
  branchName : option jsstring }.

(** A computation reads and writes the store, makes calls, and returns or
    throws; the store survives a throw. *)
Definition M (A : Type) : Type := Store -> Prog (outcome A * Store).

Definition ret {A} (a : A) : M A := fun s => Ret (Returns a, s).
Definition throw {A} (e : exn) : M A := fun s => Ret (Throws e, s).

Definition bind {A B} (m : M A) (f : A -> M B) : M B :=
  fun s => pbind (m s) (fun rs =>
    match fst rs with
    | Returns a => f a (snd rs)
    | Throws e => Ret (Throws e, snd rs)
    end).

(** [try { m } catch (e) { h e }]. *)
Definition try_catch {A} (m : M A) (h : exn -> M A) : M A :=
  fun s => pbind (m s) (fun rs =>
    match fst rs with
    | Returns a => Ret (Returns a, snd rs)
    | Throws e => h e (snd rs)
    end).

(** A call: its answer is returned or rethrown. *)
Definition call (c : Call) : M (resp c) := fun s => Do c (fun o => Ret (o, s)).

Definition get : M Store := fun s => Ret (Returns s, s).
Definition put (s' : Store) : M unit := fun _ => Ret (Returns tt, s').

Declare Scope js_scope.
Delimit Scope js_scope with js.
Notation "x <- m ;; k" := (bind m (fun x => k))
  (at level 61, m at next level, right associativity) : js_scope.
Notation "m ;;; k" := (bind m (fun _ => k))
  (at level 61, right associativity) : js_scope.
Local Open Scope js_scope.

(** Running a computation from a store, with an empty history. *)
Definition exec {A} (env : Env) (m : M A) (s : Store) : outcome A * Store * list Call :=
  run env (m s) [].

Definition result_of {A} (x : outcome A * Store * list Call) : outcome A := fst (fst x).
Definition store_of {A} (x : outcome A * Store * list Call) : Store := snd (fst x).
Definition trace_of {A} (x : outcome A * Store * list Call) : list Call := snd x.

(** ** Built-ins of the JavaScript host

    [String.prototype.toLowerCase], [String.prototype.replace] with a
    string pattern, and [path.join] / [path.dirname] of Node are not code of
    the repository: the model takes them as parameters, and every theorem
    below holds whatever they compute. *)
Record Host := mkHost {
  toLowerCase : jsstring -> jsstring;
  replace : jsstring -> jsstring -> jsstring -> jsstring;
  path_join : jsstring -> jsstring -> jsstring;
  path_dirname : jsstring -> jsstring }.

(** ** [services/slack/client.ts] *)

Module SlackService.

(** [postMessage]: the timestamp of the posted message. *)
Definition postMessage (channel text : jsstring) (threadTs : option jsstring)
  : M jsstring :=
  try_catch
    (result <- call (ChatPostMessage channel text threadTs) ;;
     match Resp.post_ok result, Resp.post_ts result with
     | true, Some (c :: ts) => ret (c :: ts)
     | _, _ =>
       throw (JsError (lit "Slack API error: "
                       ++ or_else (Resp.post_error result) (lit "Unknown error")))
     end)
    (fun error => throw error).

Definition updateMessage (channel ts text : jsstring) : M unit :=
  try_catch
    (result <- call (ChatUpdate channel ts text) ;;
     if negb (Resp.update_ok result) then
       throw (JsError (lit "Slack API error: "
                       ++ or_else (Resp.update_error result) (lit "Unknown error")))
     else ret tt)
    (fun error => throw error).

Definition addReaction (channel timestamp emoji : jsstring) : M unit :=
  try_catch
    (call (ReactionsAdd channel timestamp emoji) ;;; ret tt)
    (fun _ => ret tt).

End SlackService.

(** ** [services/git/automation.ts] *)

Module GitAutomationService.
Section WithHost.

Variable host : Host.
Variable config : Config.t.

Definition not_initialized : exn :=
  JsError (lit "Git not initialized. Call initializeRepo() first.").

(** [if (!this.git) throw ...] at the head of a method. *)
Definition with_git {A} (m : M A) : M A :=
  s <- get ;;
  match git s with
  | None => throw not_initialized
  | Some _ => m
  end.

Definition checkRepoExists : M bool :=
  try_catch
    (call (FsAccess (path_join host (Config.repoPath config) (lit ".git"))) ;;;
     ret true)
    (fun _ => ret false).

Definition getAuthenticatedUrl : jsstring :=
  replace host (Config.targetRepoUrl config) (lit "https://")
    (lit "https://" ++ Config.username config ++ lit ":"
     ++ Config.token config ++ lit "@").

Definition initializeRepo : M unit :=
  try_catch
    (exists_ <- checkRepoExists ;;
     (if negb exists_ then
        call (FsMkdir (path_dirname host (Config.repoPath config))) ;;;
        call (GitClone getAuthenticatedUrl (Config.repoPath config)) ;;;
        ret tt
      else ret tt) ;;;
     call (GitOpen (Config.repoPath config)) ;;;
     s <- get ;;
     put (mkStore (Some (Config.repoPath config)) (statusMessageTs s) (branchName s)) ;;;
     call (GitCheckout (Config.baseBranch config)) ;;;
     call (GitPull (lit "origin") (Config.baseBranch config)) ;;;
     ret tt)
    (fun error => throw error).

(** [.replace(/[^a-z0-9\s-]/g, '')]. *)
Definition keep_slug_chars (s : jsstring) : jsstring :=
  filter (fun c => is_lower c || is_digit c || is_space c || is_hyphen c) s.

(** [.replace(/\s+/g, '-')]: every maximal run of white space becomes one
    hyphen. *)
Fixpoint hyphenate (s : jsstring) : jsstring :=
  match s with
  | [] => []
  | c :: s' =>
    if is_space c then
      match s' with
      | c' :: _ => if is_space c' then hyphenate s' else 45%N :: hyphenate s'
      | [] => [45%N]
      end
    else c :: hyphenate s'
  end.

Definition generateBranchName (options : BranchOptions.t) : jsstring :=
  let prefix := type_name (BranchOptions.type options) in
  let sanitized :=
    substring0 50
      (hyphenate (keep_slug_chars (toLowerCase host (BranchOptions.description options)))) in
  prefix ++ lit "/" ++ sanitized.

Definition createBranch (options : BranchOptions.t) : M GitBranchResult.t :=
  with_git
    (try_catch
       (let branchName := generateBranchName options in
        let base := or_else (BranchOptions.baseBranch options) (Config.baseBranch config) in
        call (GitCheckout base) ;;;
        call (GitPull (lit "origin") base) ;;;
        try_catch
          (call (GitDeleteLocalBranch branchName true) ;;; ret tt)
          (fun _ => ret tt) ;;;
        call (GitCheckoutLocalBranch branchName) ;;;
        ret (GitBranchResult.mk true (Some branchName) None))
       (fun error =>
          ret (GitBranchResult.mk false None (Some (error_text error))))).

Definition getCurrentBranch : M jsstring :=
  with_git
    (status <- call GitStatus ;;
     ret (or_else (Resp.current status) (lit "unknown"))).

Definition commitChanges (message : jsstring) (files : list jsstring)
  : M GitCommitResult.t :=
  with_git
    (try_catch
       ((if 0 <? List.length files
         then call (GitAdd files)
         else call GitAddAll) ;;;
        status <- call GitStatus ;;
        if List.length (Resp.files status) =? 0 then
          current <- getCurrentBranch ;;
          ret (GitCommitResult.mk true None (Some current) None)
        else
          commitResult <- call (GitCommit message) ;;
          let hash := Resp.commit commitResult in
          current <- getCurrentBranch ;;
          ret (GitCommitResult.mk true (Some hash) (Some current) None))
       (fun error =>
          ret (GitCommitResult.mk false None None (Some (error_text error))))).

Definition pushBranch (branchName : jsstring) : M bool :=
  with_git
    (try_catch
       (call (GitAddConfig (lit "credential.helper") (lit "store")) ;;;
        call (GitPush [lit "--set-upstream"; lit "origin"; branchName]) ;;;
        ret true)
       (fun _ => ret false)).

Definition getRepoPath : jsstring := Config.repoPath config.

End WithHost.
End GitAutomationService.

(** ** [core/processor.ts] *)

Module Processor.

(** *** Pure helpers *)

Section WithHost.

Variable host : Host.

Definition determineBranchType (text : jsstring) : BranchNamingStrategy :=
  let lowerText := toLowerCase host text in
  if includes (lit "bug") lowerText || includes (lit "fix") lowerText
     || includes (lit "error") lowerText then fix_
  else if includes (lit "feature") lowerText || includes (lit "add") lowerText
     || includes (lit "implement") lowerText then feat
  else if includes (lit "refactor") lowerText || includes (lit "improve") lowerText
     || includes (lit "optimize") lowerText then refactor
  else chore.

End WithHost.

Definition bullet_lines (bullet : jsstring) (fs : list jsstring) : jsstring :=
  join nl (map (fun f => bullet ++ f) fs).

Definition generateCommitMessage (issueText solution : jsstring)
  (filesChanged : list jsstring) : jsstring :=
  let preview :=
    substring0 50 issueText
    ++ (if 50 <? Js.length issueText then lit "..." else []) in
  lit "🤖 Auto-fix: " ++ preview ++ lit "

" ++ solution ++ lit "

Files changed:
" ++ bullet_lines (lit "- ") filesChanged ++ lit "

---
🤖 Generated by Claude AutoFix Bot
Co-authored-by: Claude <noreply@anthropic.com>".

Definition generatePRTitle (issueText type : jsstring) : jsstring :=
  let prefix :=
    if Js.eqb type (lit "fix") then lit "🐛 Fix:"
    else if Js.eqb type (lit "feat") then lit "✨ Feature:"
    else lit "♻️ Refactor:" in
  let title := substring0 70 issueText in
  prefix ++ lit " " ++ title
  ++ (if 70 <? Js.length issueText then lit "..." else []).

(** *** The status texts *)

Module Msg.

Definition systemPrompt : jsstring :=
  lit "You are a senior software engineer fixing issues in a production codebase.

Be precise, surgical, and thorough. Only change what needs to be changed.
Provide complete file contents, not diffs.
Maintain existing code style and conventions.
Test your logic mentally before responding.

This fix will be automatically deployed - make sure it's production-ready.".

Definition analyzing : jsstring :=
  lit "🔧 *Analyzing issue...*" ++ nl
  ++ lit "Claude is reviewing your request and the codebase.".

Definition cloning : jsstring :=
  lit "📦 *Cloning repository...*" ++ nl ++ lit "Setting up local workspace.".

Definition running : jsstring :=
  lit "🤖 *Running Claude Agent...*" ++ nl
  ++ lit "Analyzing codebase and generating fix...".

Definition analysis_failed (fixResult : FixResult.t) : jsstring :=
  lit "❌ *Analysis Failed*" ++ nl ++ nl
  ++ or_else (FixResult.error fixResult) (lit "Unknown error occurred")
  ++ nl ++ nl
  ++ lit "Please try rephrasing your request or providing more details about the issue.".

Definition no_changes (fixResult : FixResult.t) : jsstring :=
  lit "⚠️ *No Changes Generated*" ++ nl ++ nl
  ++ lit "Claude analyzed the issue but didn't generate any file changes."
  ++ nl ++ nl ++ lit "**Analysis:**" ++ nl ++ FixResult.analysis fixResult
  ++ nl ++ nl ++ lit "This might mean:" ++ nl
  ++ lit "• The issue couldn't be fixed automatically" ++ nl
  ++ lit "• More information is needed" ++ nl
  ++ lit "• The issue might already be fixed".

Definition creating_branch (fixResult : FixResult.t) : jsstring :=
  lit "💾 *Creating branch...*" ++ nl ++ lit "Generated "
  ++ show_nat (List.length (FixResult.filesChanged fixResult))
  ++ lit " file change(s).".

Definition branch_failed (branchResult : GitBranchResult.t) : jsstring :=
  lit "⚠️ *Git Branch Creation Failed*" ++ nl ++ nl
  ++ show (GitBranchResult.error branchResult) ++ nl ++ nl
  ++ lit "Fix was generated but could not create branch.".

Definition committing (branchName : jsstring) : jsstring :=
  lit "💾 *Committing changes...*" ++ nl ++ lit "Branch: `" ++ branchName ++ lit "`".

Definition commit_failed (commitResult : GitCommitResult.t) : jsstring :=
  lit "⚠️ *Git Commit Failed*" ++ nl ++ nl
  ++ show (GitCommitResult.error commitResult) ++ nl ++ nl
  ++ lit "Fix was generated but could not be committed.".

(** [commitResult.hash?.substring(0, 7)]. *)
Definition short_hash (commitResult : GitCommitResult.t) : option jsstring :=
  option_map (substring0 7) (GitCommitResult.hash commitResult).

Definition pushing (branchName : jsstring) (commitResult : GitCommitResult.t)
  : jsstring :=
  lit "📤 *Pushing to GitHub...*" ++ nl ++ lit "Branch: `" ++ branchName
  ++ lit "`" ++ nl ++ lit "Commit: `" ++ show (short_hash commitResult) ++ lit "`".

Definition push_failed : jsstring :=
  lit "⚠️ *Git Push Failed*" ++ nl ++ nl
  ++ lit "Changes were committed locally but could not be pushed to GitHub."
  ++ nl ++ nl ++ lit "Please check GitHub credentials and permissions.".

Definition creating_pr : jsstring :=
  lit "📝 *Creating pull request...*" ++ nl ++ lit "Branch pushed successfully!".

Definition pr_failed (prResult : GitHubPRResult.t) (branchName : jsstring)
  : jsstring :=
  lit "⚠️ *PR Creation Failed*" ++ nl ++ nl
  ++ show (GitHubPRResult.error prResult) ++ nl ++ nl
  ++ lit "Changes were pushed to branch `" ++ branchName
  ++ lit "` but PR could not be created." ++ nl ++ nl
  ++ lit "You can create the PR manually.".

Definition deploying (prUrl : jsstring) : jsstring :=
  lit "🚀 *Deploying to preview...*" ++ nl ++ nl
  ++ lit "✅ Pull request created!" ++ nl ++ lit "📝 PR: " ++ prUrl ++ nl ++ nl
  ++ lit "⏳ Waiting for Vercel to deploy preview (this may take 2-5 minutes)...".

Definition deployed (url prUrl branchName : jsstring)
  (commitResult : GitCommitResult.t) (fixResult : FixResult.t)
  (userId : jsstring) : jsstring :=
  lit "✅ *Fix Deployed Successfully!*

🔗 *Preview URL:* " ++ url ++ lit "
📝 *Pull Request:* " ++ prUrl ++ lit "
🌿 *Branch:* `" ++ branchName ++ lit "`
📌 *Commit:* `" ++ show (short_hash commitResult) ++ lit "`

---

### 📊 Analysis
" ++ FixResult.analysis fixResult ++ lit "

### 💡 Solution Applied
" ++ FixResult.solution fixResult ++ lit "

### 📂 Files Modified ("
  ++ show_nat (List.length (FixResult.filesChanged fixResult)) ++ lit ")
"
  ++ join nl (map (fun f => lit "• `" ++ f ++ lit "`") (FixResult.filesChanged fixResult))
  ++ lit "

---

⚡ *Ready for testing!* Click the preview URL to see your changes live.
🔍 Review the PR and merge when ready.

_Requested by <@" ++ userId ++ lit ">_".

Definition partial_success (prUrl branchName : jsstring)
  (fixResult : FixResult.t) (deployment : DeploymentResult.t) : jsstring :=
  lit "⚠️ *Partial Success*

✅ Fix generated and PR created!
❌ Deployment preview may still be building

📝 *Pull Request:* " ++ prUrl ++ lit "
🌿 *Branch:* `" ++ branchName ++ lit "`

---

### 💡 Changes Made
" ++ FixResult.solution fixResult ++ lit "

### 📂 Files Modified
"
  ++ join nl (map (fun f => lit "• `" ++ f ++ lit "`") (FixResult.filesChanged fixResult))
  ++ lit "

---

🔍 *Next Steps:*
• Check the PR for the full diff
• Deployment preview may appear in the PR checks shortly
• Or manually deploy to test the changes

_Note: "
  ++ or_else (DeploymentResult.error deployment)
       (lit "Deployment is taking longer than expected")
  ++ lit "_".

Definition system_error (error : exn) (branchName : option jsstring) : jsstring :=
  lit "❌ *System Error*" ++ nl ++ nl ++ lit "An unexpected error occurred:" ++ nl
  ++ lit "```" ++ nl ++ error_text error ++ nl ++ lit "```" ++ nl ++ nl
  ++ lit "Please try again or contact support if the issue persists."
  ++ (match branchName with
      | Some (c :: b) =>
        nl ++ nl ++ lit "_Note: Branch `" ++ (c :: b) ++ lit "` may have been created._"
      | _ => []
      end).

Definition critical_error (error : exn) : jsstring :=
  lit "❌ Critical error: " ++ error_text error.

End Msg.

(** *** [processIssue] *)

Section WithHost.

Variable host : Host.
Variable config : Config.t.

#[local] Abbreviation createBranch := (GitAutomationService.createBranch host config).
#[local] Abbreviation commitChanges := GitAutomationService.commitChanges.
#[local] Abbreviation pushBranch := GitAutomationService.pushBranch.
#[local] Abbreviation initializeRepo := (GitAutomationService.initializeRepo host config).
#[local] Abbreviation getRepoPath := (GitAutomationService.getRepoPath config).

Definition set_statusMessageTs (v : option jsstring) : M unit :=
  s <- get ;; put (mkStore (git s) v (branchName s)).

Definition set_branchName (v : option jsstring) : M unit :=
  s <- get ;; put (mkStore (git s) (statusMessageTs s) v).

Section Job.

Variable job : IssueJob.t.

Let text := IssueJob.text job.
Let channel := IssueJob.channel job.
Let threadTs := IssueJob.threadTs job.
Let userId := IssueJob.userId job.

(** A [JobResult] literal: the fields that the literal does not write are
    [undefined]. *)
Definition job_result (status : JobStatus) : JobResult.t :=
  JobResult.mk (IssueJob.id job) status None None None None None None.

(** Steps 8 and 9: wait for the deployment, report. *)
Definition track_deployment (statusMessageTs : jsstring)
  (fixResult : FixResult.t) (branchName : jsstring)
  (commitResult : GitCommitResult.t) (prUrl : jsstring) : M JobResult.t :=
  SlackService.updateMessage channel statusMessageTs (Msg.deploying prUrl) ;;;
  deployment <- call (WaitForDeployment branchName 5) ;;
  match DeploymentResult.success deployment, DeploymentResult.url deployment with
  | true, Some (c :: u) =>
    SlackService.updateMessage channel statusMessageTs
      (Msg.deployed (c :: u) prUrl branchName commitResult fixResult userId) ;;;
    SlackService.addReaction channel threadTs (lit "white_check_mark") ;;;
    ret (JobResult.mk (IssueJob.id job) completed (Some branchName) (Some prUrl)
           (Some (c :: u)) (Some fixResult) (Some deployment) None)
  | _, _ =>
    SlackService.updateMessage channel statusMessageTs
      (Msg.partial_success prUrl branchName fixResult deployment) ;;;
    SlackService.addReaction channel threadTs (lit "warning") ;;;
    ret (JobResult.mk (IssueJob.id job) completed (Some branchName) (Some prUrl)
           None (Some fixResult) (Some deployment) None)
  end.

(** Step 7: create the pull request. *)
Definition create_pr (statusMessageTs : jsstring) (fixResult : FixResult.t)
  (branchType : BranchNamingStrategy) (branchName : jsstring)
  (commitResult : GitCommitResult.t) : M JobResult.t :=
  SlackService.updateMessage channel statusMessageTs Msg.creating_pr ;;;
  let prTitle := generatePRTitle text (type_name branchType) in
  prBody <- call (FormatPRDescription (FixResult.analysis fixResult)
                    (FixResult.solution fixResult)
                    (FixResult.filesChanged fixResult)) ;;
  prResult <- call (CreatePullRequest branchName prTitle prBody) ;;
  match GitHubPRResult.success prResult, GitHubPRResult.prUrl prResult with
  | true, Some (c :: u) =>
    (match GitHubPRResult.prNumber prResult with
     | Some n =>
       if (n =? 0)%N then ret tt
       else call (AddLabels n [lit "automated"; lit "claude-fix"])
     | None => ret tt
     end) ;;;
    track_deployment statusMessageTs fixResult branchName commitResult (c :: u)
  | _, _ =>
    SlackService.updateMessage channel statusMessageTs
      (Msg.pr_failed prResult branchName) ;;;
    ret (JobResult.mk (IssueJob.id job) completed (Some branchName) None None
           (Some fixResult) None (GitHubPRResult.error prResult))
  end.

(** Step 6: push. *)
Definition push (statusMessageTs : jsstring) (fixResult : FixResult.t)
  (branchType : BranchNamingStrategy) (branchName : jsstring)
  (commitResult : GitCommitResult.t) : M JobResult.t :=
  SlackService.updateMessage channel statusMessageTs
    (Msg.pushing branchName commitResult) ;;;
  pushSuccess <- pushBranch branchName ;;
  if negb pushSuccess then
    SlackService.updateMessage channel statusMessageTs Msg.push_failed ;;;
    ret (JobResult.mk (IssueJob.id job) failed None None None
           (Some fixResult) None (Some (lit "Failed to push to remote")))
  else create_pr statusMessageTs fixResult branchType branchName commitResult.

(** Step 5: commit. *)
Definition commit (statusMessageTs : jsstring) (fixResult : FixResult.t)
  (branchType : BranchNamingStrategy) (branchName : jsstring) : M JobResult.t :=
  SlackService.updateMessage channel statusMessageTs (Msg.committing branchName) ;;;
  let commitMessage :=
    generateCommitMessage text (FixResult.solution fixResult)
      (FixResult.filesChanged fixResult) in
  commitResult <- commitChanges commitMessage (FixResult.filesChanged fixResult) ;;
  if negb (GitCommitResult.success commitResult) then
    SlackService.updateMessage channel statusMessageTs
      (Msg.commit_failed commitResult) ;;;
    ret (JobResult.mk (IssueJob.id job) failed None None None
           (Some fixResult) None (GitCommitResult.error commitResult))
  else push statusMessageTs fixResult branchType branchName commitResult.

(** Step 4: create the branch. *)
Definition branch (statusMessageTs : jsstring) (fixResult : FixResult.t)
  : M JobResult.t :=
  SlackService.updateMessage channel statusMessageTs
    (Msg.creating_branch fixResult) ;;;
  let branchType := determineBranchType host text in
  let branchOptions := BranchOptions.mk branchType (substring0 50 text) None in
  branchResult <- createBranch branchOptions ;;
  match GitBranchResult.success branchResult,
        GitBranchResult.branchName branchResult with
  | true, Some (c :: b) =>
    set_branchName (Some (c :: b)) ;;;
    commit statusMessageTs fixResult branchType (c :: b)
  | _, _ =>
    SlackService.updateMessage channel statusMessageTs
      (Msg.branch_failed branchResult) ;;;
    ret (JobResult.mk (IssueJob.id job) failed None None None
           (Some fixResult) None (GitBranchResult.error branchResult))
  end.

(** The [try] block: steps 1 to 3, then the rest. *)
Definition pipeline : M JobResult.t :=
  SlackService.addReaction channel threadTs (lit "eyes") ;;;
  statusMsg <- SlackService.postMessage channel Msg.analyzing (Some threadTs) ;;
  set_statusMessageTs (Some statusMsg) ;;;
  SlackService.updateMessage channel statusMsg Msg.cloning ;;;
  initializeRepo ;;;
  SlackService.updateMessage channel statusMsg Msg.running ;;;
  fixResult <- call (AnalyzeAndFix text
                       (ClaudeAgentConfig.mk Msg.systemPrompt getRepoPath
                          None (Some 8000%N))) ;;
  if negb (FixResult.success fixResult) then
    SlackService.updateMessage channel statusMsg (Msg.analysis_failed fixResult) ;;;
    ret (JobResult.mk (IssueJob.id job) failed None None None None None
           (FixResult.error fixResult))
  else if List.length (FixResult.filesChanged fixResult) =? 0 then
    SlackService.updateMessage channel statusMsg (Msg.no_changes fixResult) ;;;
    ret (JobResult.mk (IssueJob.id job) completed None None None
           (Some fixResult) None None)
  else branch statusMsg fixResult.

(** The [catch] block. *)
Definition on_error (error : exn) : M JobResult.t :=
  s <- get ;;
  match statusMessageTs s with
  | Some (c :: ts) =>
    try_catch
      (SlackService.updateMessage channel (c :: ts)
         (Msg.system_error error (branchName s)))
      (fun _ =>
         SlackService.postMessage channel (Msg.critical_error error)
           (Some threadTs) ;;;
         ret tt)
  | _ => ret tt
  end ;;;
  ret (JobResult.mk (IssueJob.id job) failed None None None None None
         (Some (error_text error))).

Definition processIssue : M JobResult.t :=
  s <- get ;;
  put (mkStore (git s) None None) ;;;
  try_catch pipeline on_error.

End Job.
End WithHost.
End Processor.

(** ** A host for the examples

    On strings of the Basic Latin block, [toLowerCase] maps [A-Z] to [a-z]
    and leaves every other code unit alone; [replace] substitutes the
    first occurrence of the pattern (the replacements of the examples hold
    no [$]); the paths are POSIX paths without a trailing slash. The
    examples apply this host to such strings only. *)
Definition ascii_lower (c : N) : N :=
  if (65 <=? c)%N && (c <=? 90)%N then (c + 32)%N else c.

Fixpoint replace_first (s pat by_ : jsstring) : jsstring :=
  match strip_prefix pat s with
  | Some rest => by_ ++ rest
  | None =>
    match s with
    | [] => []
    | c :: s' => c :: replace_first s' pat by_
    end
  end.

(** The part of a path before its last slash. *)
Fixpoint dirname (p : jsstring) : jsstring :=
  match p with
  | [] => []
  | c :: p' =>
    if existsb (N.eqb 47) p' then c :: dirname p' else []
  end.

Definition ascii_host : Host :=
  mkHost (map ascii_lower)
         replace_first
         (fun a b => a ++ lit "/" ++ b)
         dirname.

Example ascii_host_lower :
  toLowerCase ascii_host (lit "Fix the Typo in README.md")
  = lit "fix the typo in readme.md".
Proof. reflexivity. Qed.

Example ascii_host_replace :
  replace ascii_host (lit "https://github.com/o/r.git") (lit "https://")
    (lit "https://u:t@") = lit "https://u:t@github.com/o/r.git".
Proof. reflexivity. Qed.

Example ascii_host_dirname :
  path_dirname ascii_host (lit "/tmp/claude-autofix-repos/r")
  = lit "/tmp/claude-autofix-repos".
Proof. reflexivity. Qed.

(** ** Facts about strings *)

(** [p] occurs in [s]. *)
Definition contains (p s : jsstring) : Prop :=
  exists pre suf, s = pre ++ p ++ suf.

Lemma strip_prefix_spec (p s r : jsstring) :
  strip_prefix p s = Some r <-> s = p ++ r.
Proof.
  revert s; induction p as [|a p IH]; intros s; simpl.
  - split; [intros [= ->]; reflexivity | intros ->; reflexivity].
  - destruct s as [|b s]; [split; discriminate|].
    unfold code_eqb. destruct (N.eqb_spec a b) as [->|Hab].
    + rewrite IH. split; [intros ->; reflexivity | intros [= ->]; reflexivity].
    + split; [discriminate | intros [= E _]; congruence].
Qed.

Lemma starts_with_spec (p s : jsstring) :
  starts_with p s = true <-> exists r, s = p ++ r.
Proof.
  unfold starts_with. destruct (strip_prefix p s) as [r|] eqn:E.
  - apply strip_prefix_spec in E. split; [eauto | reflexivity].
  - split; [discriminate|]. intros [r Hr].
    apply strip_prefix_spec in Hr. congruence.
Qed.

Lemma includes_spec (p s : jsstring) :
  includes p s = true <-> contains p s.
Proof.
  unfold contains. induction s as [|c s IH].
  - simpl. rewrite orb_false_r, starts_with_spec. split.
    + intros [r Hr]. exists [], r. exact Hr.
    + intros [pre [suf H]]. destruct pre; [eauto | discriminate].
  - change (includes p (c :: s)) with (starts_with p (c :: s) || includes p s).
    rewrite orb_true_iff, starts_with_spec, IH. split.
    + intros [[r Hr] | [pre [suf H]]].
      * exists [], r. exact Hr.
      * exists (c :: pre), suf. simpl. now rewrite H.
    + intros [pre [suf H]]. destruct pre as [|c' pre].
      * left. exists suf. exact H.
      * right. injection H as _ H. eauto.
Qed.

Lemma includes_false (p s : jsstring) :
  includes p s = false <-> ~ contains p s.
Proof.
  rewrite <- includes_spec. destruct (includes p s); split; congruence.
Qed.

Lemma eqb_spec (s t : jsstring) : Js.eqb s t = true <-> s = t.
Proof.
  revert t; induction s as [|a s IH]; intros [|b t]; simpl;
    try (split; (discriminate || reflexivity)).
  unfold code_eqb. rewrite andb_true_iff, IH, N.eqb_eq.
  split; [intros [-> ->]; reflexivity | intros [= -> ->]; auto].
Qed.

Arguments lit : simpl never.

(** ** Branch type and pull-request title *)

Section BranchType.

Variable host : Host.

(** The keywords of one category occur in the lowered text. *)
Definition mentions (keywords : list jsstring) (text : jsstring) : Prop :=
  Exists (fun k => contains k (toLowerCase host text)) keywords.

Definition fix_words := [lit "bug"; lit "fix"; lit "error"].
Definition feat_words := [lit "feature"; lit "add"; lit "implement"].
Definition refactor_words := [lit "refactor"; lit "improve"; lit "optimize"].

Lemma any_includes (k1 k2 k3 : jsstring) (text : jsstring) :
  includes k1 (toLowerCase host text) || includes k2 (toLowerCase host text)
  || includes k3 (toLowerCase host text) = true
  <-> mentions [k1; k2; k3] text.
Proof.
  unfold mentions. rewrite !orb_true_iff, !includes_spec, !Exists_cons, Exists_nil.
  tauto.
Qed.

Lemma determineBranchType_cases (text : jsstring) :
  (mentions fix_words text /\ Processor.determineBranchType host text = fix_)
  \/ (~ mentions fix_words text /\ mentions feat_words text
      /\ Processor.determineBranchType host text = feat)
  \/ (~ mentions fix_words text /\ ~ mentions feat_words text
      /\ mentions refactor_words text
      /\ Processor.determineBranchType host text = refactor)
  \/ (~ mentions fix_words text /\ ~ mentions feat_words text
      /\ ~ mentions refactor_words text
      /\ Processor.determineBranchType host text = chore).
Proof.
  unfold Processor.determineBranchType, fix_words, feat_words, refactor_words.
  set (l := toLowerCase host text).
  pose proof (any_includes (lit "bug") (lit "fix") (lit "error") text) as H1.
  pose proof (any_includes (lit "feature") (lit "add") (lit "implement") text) as H2.
  pose proof (any_includes (lit "refactor") (lit "improve") (lit "optimize") text) as H3.
  fold l in H1, H2, H3.
  destruct (includes (lit "bug") l || includes (lit "fix") l
            || includes (lit "error") l).
  { left. split; [apply H1|]; reflexivity. }
  assert (N1 : ~ mentions [lit "bug"; lit "fix"; lit "error"] text)
    by (intros C; apply H1 in C; discriminate).
  destruct (includes (lit "feature") l || includes (lit "add") l
            || includes (lit "implement") l).
  { right; left. repeat split; [exact N1 | apply H2; reflexivity]. }
  assert (N2 : ~ mentions [lit "feature"; lit "add"; lit "implement"] text)
    by (intros C; apply H2 in C; discriminate).
  destruct (includes (lit "refactor") l || includes (lit "improve") l
            || includes (lit "optimize") l).
  { right; right; left. repeat split; [exact N1 | exact N2 | apply H3; reflexivity]. }
  assert (N3 : ~ mentions [lit "refactor"; lit "improve"; lit "optimize"] text)
    by (intros C; apply H3 in C; discriminate).
  right; right; right. repeat split; assumption.
Qed.

(** C9. [determineBranchType] is defined on every string and checks the
    categories in a fixed order: it answers [fix] exactly when the lowered
    text contains "bug", "fix" or "error"; [feat] exactly when it does not
    and contains "feature", "add" or "implement"; [refactor] exactly when
    neither holds and it contains "refactor", "improve" or "optimize";
    and [chore] exactly when none of the nine words occurs. *)
Theorem determineBranchType_priority (text : jsstring) :
  (exists t, Processor.determineBranchType host text = t)
  /\ (Processor.determineBranchType host text = fix_
      <-> mentions fix_words text)
  /\ (Processor.determineBranchType host text = feat
      <-> ~ mentions fix_words text /\ mentions feat_words text)
  /\ (Processor.determineBranchType host text = refactor
      <-> ~ mentions fix_words text /\ ~ mentions feat_words text
          /\ mentions refactor_words text)
  /\ (Processor.determineBranchType host text = chore
      <-> ~ mentions fix_words text /\ ~ mentions feat_words text
          /\ ~ mentions refactor_words text).
Proof.
  split; [eexists; reflexivity|].
  destruct (determineBranchType_cases text)
    as [[A E] | [[A [B E]] | [[A [B [C E]]] | [A [B [C E]]]]]];
    rewrite E; repeat split; intros; try discriminate; try tauto.
Qed.

End BranchType.

Definition refactor_prefix : jsstring := lit "♻️ Refactor:".

(** Only [fix] and [feat] have a prefix of their own. *)
Lemma generatePRTitle_prefix (issueText : jsstring) (t : BranchNamingStrategy) :
  Processor.generatePRTitle issueText (type_name t)
  = (match t with
     | fix_ => lit "🐛 Fix:"
     | feat => lit "✨ Feature:"
     | refactor | chore => refactor_prefix
     end)
    ++ lit " " ++ substring0 70 issueText
    ++ (if 70 <? Js.length issueText then lit "..." else []).
Proof. destruct t; reflexivity. Qed.

(** C10. When the branch type derived from the text is [chore], the title
    of the pull request is the refactor prefix, a space, the first 70 code
    units of the text, and "..." when the text is longer than 70. *)
Theorem chore_title_has_refactor_prefix (host : Host) (text : jsstring) :
  Processor.determineBranchType host text = chore ->
  Processor.generatePRTitle text
    (type_name (Processor.determineBranchType host text))
  = refactor_prefix ++ lit " " ++ substring0 70 text
    ++ (if 70 <? Js.length text then lit "..." else [])
  /\ starts_with refactor_prefix
       (Processor.generatePRTitle text
          (type_name (Processor.determineBranchType host text))) = true.
Proof.
  intros E. rewrite E, generatePRTitle_prefix. split; [reflexivity|].
  apply starts_with_spec. eexists. reflexivity.
Qed.

Lemma chore_title_has_refactor_prefix_witness :
  Processor.generatePRTitle (lit "update the docs")
    (type_name (Processor.determineBranchType ascii_host (lit "update the docs")))
  = lit "♻️ Refactor: update the docs".
Proof.
  destruct (chore_title_has_refactor_prefix ascii_host (lit "update the docs"))
    as [E _]; [reflexivity|].
  rewrite E. reflexivity.
Defined.

(** ** Branch names *)

Definition slug_char (c : N) : bool := is_lower c || is_digit c || is_hyphen c.

(** [^(fix|feat|refactor|chore)/[a-z0-9-]{lo,hi}$]. *)
Definition matches_branch_pattern (lo hi : nat) (s : jsstring) : bool :=
  existsb
    (fun t =>
       match strip_prefix (type_name t ++ lit "/") s with
       | Some slug =>
         (lo <=? Js.length slug) && (Js.length slug <=? hi) && forallb slug_char slug
       | None => false
       end)
    [fix_; feat; refactor; chore].

Definition no_whitespace (s : jsstring) : bool :=
  forallb (fun c => negb (is_space c)) s.

Section BranchName.

Variable host : Host.

(** The name that [processIssue] asks [createBranch] for. *)
Definition derived_branch_name (text : jsstring) : jsstring :=
  GitAutomationService.generateBranchName host
    (BranchOptions.mk (Processor.determineBranchType host text)
       (substring0 50 text) None).

Lemma slug_char_not_space (c : N) : slug_char c = true -> is_space c = false.
Proof.
  unfold slug_char, is_lower, is_digit, is_hyphen, is_space.
  rewrite !orb_true_iff, !andb_true_iff, !N.leb_le, N.eqb_eq.
  intros H.
  repeat (apply orb_false_intro);
    try (apply andb_false_iff; rewrite !N.leb_gt; lia);
    try (apply N.eqb_neq; lia).
Qed.

Lemma hyphenate_slug (s : jsstring) :
  Forall (fun c => (is_lower c || is_digit c || is_space c || is_hyphen c) = true) s ->
  Forall (fun c => slug_char c = true) (GitAutomationService.hyphenate s).
Proof.
  induction 1 as [|c s Hc Hs IH]; simpl; [constructor|].
  destruct (is_space c) eqn:Ec.
  - destruct s as [|c' s'].
    + repeat constructor.
    + destruct (is_space c'); [exact IH | constructor; [reflexivity | exact IH]].
  - constructor; [|exact IH].
    unfold slug_char. rewrite orb_false_r in Hc.
    destruct (is_lower c), (is_digit c), (is_hyphen c); try reflexivity; discriminate.
Qed.

Lemma keep_slug_chars_kept (s : jsstring) :
  Forall (fun c => (is_lower c || is_digit c || is_space c || is_hyphen c) = true)
    (GitAutomationService.keep_slug_chars s).
Proof.
  unfold GitAutomationService.keep_slug_chars.
  apply Forall_forall. intros c Hc. apply filter_In in Hc. apply Hc.
Qed.

Lemma Forall_firstn {A} (P : A -> Prop) (n : nat) (l : list A) :
  Forall P l -> Forall P (firstn n l).
Proof.
  intros H. apply Forall_forall. intros x Hx.
  rewrite Forall_forall in H. apply H.
  rewrite <- (firstn_skipn n l). apply in_or_app. now left.
Qed.

(** The slug: at most 50 code units, all of them in [a-z0-9-]. *)
Lemma sanitized_slug (d : jsstring) :
  let slug := substring0 50
    (GitAutomationService.hyphenate
       (GitAutomationService.keep_slug_chars (toLowerCase host d))) in
  Js.length slug <= 50 /\ forallb slug_char slug = true.
Proof.
  cbv zeta. split.
  - unfold substring0, Js.length. apply firstn_le_length.
  - apply forallb_forall. apply Forall_forall.
    unfold substring0. apply Forall_firstn, hyphenate_slug, keep_slug_chars_kept.
Qed.

Lemma generateBranchName_shape (options : BranchOptions.t) :
  exists slug,
    GitAutomationService.generateBranchName host options
    = type_name (BranchOptions.type options) ++ lit "/" ++ slug
    /\ Js.length slug <= 50 /\ forallb slug_char slug = true.
Proof.
  eexists. split; [reflexivity|]. apply sanitized_slug.
Qed.

Lemma matches_branch_pattern_intro (t : BranchNamingStrategy) (slug : jsstring) :
  Js.length slug <= 50 -> forallb slug_char slug = true ->
  matches_branch_pattern 0 50 (type_name t ++ lit "/" ++ slug) = true.
Proof.
  intros Hlen Hall. unfold matches_branch_pattern.
  apply existsb_exists. exists t. split.
  - destruct t; simpl; tauto.
  - assert (E : strip_prefix (type_name t ++ lit "/")
                  (type_name t ++ lit "/" ++ slug) = Some slug)
      by (apply strip_prefix_spec; now rewrite app_assoc).
    rewrite E, Hall. apply Nat.leb_le in Hlen. rewrite Hlen. reflexivity.
Qed.

Lemma no_whitespace_intro (t : BranchNamingStrategy) (slug : jsstring) :
  forallb slug_char slug = true ->
  no_whitespace (type_name t ++ lit "/" ++ slug) = true.
Proof.
  intros Hall. unfold no_whitespace.
  rewrite !forallb_app. 
  assert (Hs : forallb (fun c => negb (is_space c)) slug = true).
  { apply forallb_forall. intros c Hc.
    rewrite forallb_forall in Hall. rewrite (slug_char_not_space c); auto. }
  rewrite Hs. destruct t; reflexivity.
Qed.

End BranchName.

Section BranchNameTheorems.

Variable host : Host.

Lemma hyphenate_nil (s : jsstring) :
  GitAutomationService.hyphenate s = [] <-> s = [].
Proof.
  split; [|intros ->; reflexivity].
  induction s as [|c s IH]; [reflexivity|]. simpl.
  destruct (is_space c); [|discriminate].
  destruct s as [|c' s']; [discriminate|].
  destruct (is_space c'); [|discriminate].
  intros H. apply IH in H. discriminate.
Qed.

Lemma matches_nonempty (t : BranchNamingStrategy) (slug : jsstring) :
  Js.length slug <= 50 -> forallb slug_char slug = true ->
  (matches_branch_pattern 1 50 (type_name t ++ lit "/" ++ slug) = true
   <-> slug <> []).
Proof.
  intros Hlen Hall. apply Nat.leb_le in Hlen.
  unfold matches_branch_pattern.
  destruct t; cbv -[Nat.leb forallb Js.length slug_char];
    rewrite Hall, Hlen;
    (destruct slug; [split; [discriminate | congruence]
                    | split; [discriminate | reflexivity]]).
Qed.

(** C3, as the code has it. For every issue text the derived branch name
    matches [^(fix|feat|refactor|chore)/[a-z0-9-]{0,50}$] and holds no
    white space; its slug is non-empty, so that the name matches the
    pattern with [{1,50}], exactly when the lowered first 50 code units of
    the text hold a code unit of [a-z0-9], a white space or a hyphen. *)
Theorem derived_branch_name_pattern (text : jsstring) :
  matches_branch_pattern 0 50 (derived_branch_name host text) = true
  /\ no_whitespace (derived_branch_name host text) = true
  /\ (matches_branch_pattern 1 50 (derived_branch_name host text) = true
      <-> GitAutomationService.keep_slug_chars
            (toLowerCase host (substring0 50 text)) <> []).
Proof.
  unfold derived_branch_name.
  destruct (generateBranchName_shape host
              (BranchOptions.mk (Processor.determineBranchType host text)
                 (substring0 50 text) None)) as [slug [E [Hlen Hall]]].
  rewrite E. cbn [BranchOptions.type].
  split; [apply matches_branch_pattern_intro; assumption|].
  split; [apply no_whitespace_intro; assumption|].
  rewrite matches_nonempty by assumption.
  unfold GitAutomationService.generateBranchName in E.
  cbn [BranchOptions.type BranchOptions.description] in E.
  apply app_inv_head in E. apply app_inv_head in E. subst slug.
  unfold substring0 at 1.
  set (k := GitAutomationService.keep_slug_chars _).
  split.
  - intros H C. apply H. rewrite C. reflexivity.
  - intros H C. apply H. apply hyphenate_nil.
    destruct (GitAutomationService.hyphenate k); [reflexivity | discriminate].
Qed.

End BranchNameTheorems.

(** C3, as the specification states it, fails: a text without any letter,
    digit, white space or hyphen gives the name "chore/", whose slug is
    empty. *)
Lemma derived_branch_name_empty_slug :
  derived_branch_name ascii_host (lit "!!!") = lit "chore/"
  /\ matches_branch_pattern 1 50 (derived_branch_name ascii_host (lit "!!!")) = false.
Proof. split; reflexivity. Qed.

Example scenario_A_branch_name :
  derived_branch_name ascii_host (lit "Fix the typo in README.md")
  = lit "fix/fix-the-typo-in-readmemd".
Proof. reflexivity. Qed.

(** ** Reasoning about runs *)

Lemma run_pbind {A B} (env : Env) (p : Prog A) (f : A -> Prog B) (tr : list Call) :
  run env (pbind p f) tr = run env (f (fst (run env p tr))) (snd (run env p tr)).
Proof.
  revert tr. induction p as [a | c k IH]; intros tr; simpl; [reflexivity|].
  apply IH.
Qed.

(** An environment obeys a contract when each of its answers does. *)
Definition Contract := forall c : Call, outcome (resp c) -> Prop.

Definition Obeys (env : Env) (K : Contract) : Prop :=
  forall c tr, K c (env c tr).

(** The contract that allows every answer. *)
Definition anything : Contract := fun _ _ => True.

(** The conjunction of two contracts. *)
Definition both (K1 K2 : Contract) : Contract := fun c o => K1 c o /\ K2 c o.

Lemma Obeys_anything (env : Env) : Obeys env anything.
Proof. intros c tr. exact I. Qed.

Lemma Obeys_both (env : Env) (K1 K2 : Contract) :
  Obeys env K1 -> Obeys env K2 -> Obeys env (both K1 K2).
Proof. intros H1 H2 c tr. split; [apply H1 | apply H2]. Qed.

(** *** Postconditions on every path *)

(** [leaves K Q p tr]: whatever answers the contract [K] allows, the
    program [p], started after the calls [tr], ends with a result and a
    history that satisfy [Q]. *)
Fixpoint leaves {R} (K : Contract) (Q : R -> list Call -> Prop)
  (p : Prog R) (tr : list Call) : Prop :=
  match p with
  | Ret r => Q r tr
  | Do c k => forall o, K c o -> leaves K Q (k o) (tr ++ [c])
  end.

Lemma leaves_run {R} (K : Contract) (Q : R -> list Call -> Prop) (env : Env) :
  Obeys env K ->
  forall (p : Prog R) tr,
    leaves K Q p tr -> Q (fst (run env p tr)) (snd (run env p tr)).
Proof.
  intros HK. induction p as [r | c k IH]; intros tr H; simpl in *; [exact H|].
  apply IH, H, HK.
Qed.

Lemma leaves_pbind {A B} (K : Contract) (Q : B -> list Call -> Prop)
  (p : Prog A) (f : A -> Prog B) (tr : list Call) :
  leaves K (fun a tr' => leaves K Q (f a) tr') p tr -> leaves K Q (pbind p f) tr.
Proof.
  revert tr. induction p as [a | c k IH]; intros tr H; simpl in *; [exact H|].
  intros o Ho. apply IH, H, Ho.
Qed.

Lemma leaves_weaken {R} (K : Contract) (Q Q' : R -> list Call -> Prop)
  (p : Prog R) (tr : list Call) :
  (forall r tr', Q r tr' -> Q' r tr') -> leaves K Q p tr -> leaves K Q' p tr.
Proof.
  intros HQ. revert tr. induction p as [r | c k IH]; intros tr H; simpl in *.
  - apply HQ, H.
  - intros o Ho. apply IH, H, Ho.
Qed.

Section Rules.

Variable K : Contract.

Lemma leaves_bind {A B} (Q : outcome B * Store -> list Call -> Prop)
  (m : M A) (f : A -> M B) (s0 : Store) (tr : list Call) :
  leaves K (fun rs tr' =>
              match fst rs with
              | Returns a => leaves K Q (f a (snd rs)) tr'
              | Throws e => Q (Throws e, snd rs) tr'
              end) (m s0) tr ->
  leaves K Q (bind m f s0) tr.
Proof.
  intros H. unfold bind. apply leaves_pbind.
  eapply leaves_weaken; [|exact H].
  intros [[a|e] s'] tr' H'; exact H'.
Qed.

Lemma leaves_try_catch {A} (Q : outcome A * Store -> list Call -> Prop)
  (m : M A) (h : exn -> M A) (s0 : Store) (tr : list Call) :
  leaves K (fun rs tr' =>
              match fst rs with
              | Returns a => Q (Returns a, snd rs) tr'
              | Throws e => leaves K Q (h e (snd rs)) tr'
              end) (m s0) tr ->
  leaves K Q (try_catch m h s0) tr.
Proof.
  intros H. unfold try_catch. apply leaves_pbind.
  eapply leaves_weaken; [|exact H].
  intros [[a|e] s'] tr' H'; exact H'.
Qed.

(** The handler is met with a summary [R] of the block. *)
Lemma leaves_try_catch_via {A} (R Q : outcome A * Store -> list Call -> Prop)
  (m : M A) (h : exn -> M A) (s0 : Store) (tr : list Call) :
  leaves K R (m s0) tr ->
  (forall a s' tr', R (Returns a, s') tr' -> Q (Returns a, s') tr') ->
  (forall e s' tr', R (Throws e, s') tr' -> leaves K Q (h e s') tr') ->
  leaves K Q (try_catch m h s0) tr.
Proof.
  intros Hm Hr Ht. apply leaves_try_catch.
  eapply leaves_weaken; [|exact Hm].
  intros [[a|e] s'] tr' H'; cbn; [apply Hr | apply Ht]; exact H'.
Qed.

Lemma leaves_ret {A} (Q : outcome A * Store -> list Call -> Prop)
  (a : A) (s0 : Store) (tr : list Call) :
  Q (Returns a, s0) tr -> leaves K Q (ret a s0) tr.
Proof. intros H. exact H. Qed.

Lemma leaves_throw {A} (Q : outcome A * Store -> list Call -> Prop)
  (e : exn) (s0 : Store) (tr : list Call) :
  Q (Throws e, s0) tr -> leaves K Q (throw e s0) tr.
Proof. intros H. exact H. Qed.

Lemma leaves_get (Q : outcome Store * Store -> list Call -> Prop)
  (s0 : Store) (tr : list Call) :
  Q (Returns s0, s0) tr -> leaves K Q (get s0) tr.
Proof. intros H. exact H. Qed.

Lemma leaves_put (Q : outcome unit * Store -> list Call -> Prop)
  (s' s0 : Store) (tr : list Call) :
  Q (Returns tt, s') tr -> leaves K Q (put s' s0) tr.
Proof. intros H. exact H. Qed.

(** A call whose exception is swallowed: one continuation. *)
Lemma leaves_swallow (c : Call) (Q : outcome unit * Store -> list Call -> Prop)
  (s0 : Store) (tr : list Call) :
  Q (Returns tt, s0) (tr ++ [c]) ->
  leaves K Q (try_catch (bind (call c) (fun _ => ret tt)) (fun _ => ret tt) s0) tr.
Proof. intros H o _. destruct o; exact H. Qed.

End Rules.

(** *** Calls issued on any path *)

(** [issues P p]: every call that [p] can make satisfies [P]. *)
Fixpoint issues {R} (P : Call -> Prop) (p : Prog R) : Prop :=
  match p with
  | Ret _ => True
  | Do c k => P c /\ forall o, issues P (k o)
  end.

Lemma issues_pbind {A B} (P : Call -> Prop) (p : Prog A) (f : A -> Prog B) :
  issues P p -> (forall a, issues P (f a)) -> issues P (pbind p f).
Proof.
  intros Hp Hf. induction p as [a | c k IH]; simpl in *; [apply Hf|].
  destruct Hp as [Hc Hk]. split; [exact Hc|]. intros o. apply IH, Hk.
Qed.


(** A run only appends the calls that the program issues. *)
Lemma issues_run {R} (P : Call -> Prop) (env : Env) (p : Prog R) (tr : list Call) :
  issues P p -> exists ext, snd (run env p tr) = tr ++ ext /\ Forall P ext.
Proof.
  revert tr. induction p as [r | c k IH]; intros tr H; simpl in *.
  - exists []. split; [now rewrite app_nil_r | constructor].
  - destruct H as [Hc Hk].
    destruct (IH (env c tr) (tr ++ [c]) (Hk _)) as [ext [E F]].
    exists (c :: ext). split; [rewrite E, <- app_assoc; reflexivity|].
    constructor; assumption.
Qed.

Lemma leaves_of_issues {R} (K : Contract) (P : Call -> Prop)
  (Q : R -> list Call -> Prop) (p : Prog R) (tr : list Call) :
  issues P p ->
  (forall r ext, Forall P ext -> Q r (tr ++ ext)) ->
  leaves K Q p tr.
Proof.
  revert tr. induction p as [r | c k IH]; intros tr H HQ; simpl in *.
  - rewrite <- (app_nil_r tr). apply HQ. constructor.
  - destruct H as [Hc Hk]. intros o _. apply IH; [apply Hk|].
    intros r ext F. rewrite <- app_assoc. apply HQ. constructor; assumption.
Qed.

Section IssuesRules.

Variable P : Call -> Prop.

Lemma issues_bind {A B} (m : M A) (f : A -> M B) (s0 : Store) :
  issues P (m s0) -> (forall a s', issues P (f a s')) -> issues P (bind m f s0).
Proof.
  intros Hm Hf. unfold bind. apply issues_pbind; [exact Hm|].
  intros [[a|e] s']; cbn; [apply Hf | exact I].
Qed.

Lemma issues_try_catch {A} (m : M A) (h : exn -> M A) (s0 : Store) :
  issues P (m s0) -> (forall e s', issues P (h e s')) ->
  issues P (try_catch m h s0).
Proof.
  intros Hm Hh. unfold try_catch. apply issues_pbind; [exact Hm|].
  intros [[a|e] s']; cbn; [exact I | apply Hh].
Qed.

Lemma issues_call (c : Call) (s0 : Store) : P c -> issues P (call c s0).
Proof. intros H. split; [exact H | intros o; exact I]. Qed.

End IssuesRules.

(** *** Contracts of the scenarios *)

(** Slack accepts every post, with the timestamp [ts0], and every edit. *)
Definition slack_accepts (ts0 : jsstring) : Contract := fun c =>
  match c return outcome (resp c) -> Prop with
  | ChatPostMessage _ _ _ => fun o =>
      match o with
      | Returns r => Resp.post_ok r = true /\ Resp.post_ts r = Some ts0
      | Throws _ => False
      end
  | ChatUpdate _ _ _ => fun o =>
      match o with
      | Returns r => Resp.update_ok r = true
      | Throws _ => False
      end
  | _ => fun _ => True
  end.

(** The local repository can be prepared: cloning, opening, checking out
    and pulling do not throw. *)
Definition repo_syncs : Contract := fun c =>
  match c return outcome (resp c) -> Prop with
  | FsMkdir _ | GitClone _ _ | GitOpen _ | GitCheckout _ | GitPull _ _ => fun o =>
      match o with Returns _ => True | Throws _ => False end
  | _ => fun _ => True
  end.

(** The code generation answers [fixResult]. *)
Definition analysis_gives (fixResult : FixResult.t) : Contract := fun c =>
  match c return outcome (resp c) -> Prop with
  | AnalyzeAndFix _ _ => fun o => o = Returns fixResult
  | _ => fun _ => True
  end.


Definition ends_with (suffix tr : list Call) : Prop :=
  exists before, tr = before ++ suffix.

Lemma ends_with_refl (tr : list Call) : ends_with tr tr.
Proof. exists []. reflexivity. Qed.

Lemma ends_with_cons (c : Call) (suffix tr : list Call) :
  ends_with suffix tr -> ends_with suffix (c :: tr).
Proof. intros [b ->]. exists (c :: b). reflexivity. Qed.

(** The branch can be created and the files staged. *)
Definition branch_and_stage_work : Contract := fun c =>
  match c return outcome (resp c) -> Prop with
  | GitCheckoutLocalBranch _ | GitAdd _ | GitAddAll => fun o =>
      match o with Returns _ => True | Throws _ => False end
  | _ => fun _ => True
  end.

(** [git status] answers [st]. *)
Definition status_gives (st : Resp.Status) : Contract := fun c =>
  match c return outcome (resp c) -> Prop with
  | GitStatus => fun o => o = Returns st
  | _ => fun _ => True
  end.

(** [git status] and [git commit] do not throw. *)
Definition commit_works : Contract := fun c =>
  match c return outcome (resp c) -> Prop with
  | GitStatus | GitCommit _ => fun o =>
      match o with Returns _ => True | Throws _ => False end
  | _ => fun _ => True
  end.

Definition push_works : Contract := fun c =>
  match c return outcome (resp c) -> Prop with
  | GitAddConfig _ _ | GitPush _ => fun o =>
      match o with Returns _ => True | Throws _ => False end
  | _ => fun _ => True
  end.

(** The remote refuses the push. *)
Definition push_rejected : Contract := fun c =>
  match c return outcome (resp c) -> Prop with
  | GitPush _ => fun o =>
      match o with Returns _ => False | Throws _ => True end
  | _ => fun _ => True
  end.

(** The credential helper cannot be configured. *)
Definition credentials_rejected : Contract := fun c =>
  match c return outcome (resp c) -> Prop with
  | GitAddConfig _ _ => fun o =>
      match o with Returns _ => False | Throws _ => True end
  | _ => fun _ => True
  end.

(** The description of the pull request is formatted, and its creation
    answers [prResult]. *)
Definition pr_gives (prResult : GitHubPRResult.t) : Contract := fun c =>
  match c return outcome (resp c) -> Prop with
  | FormatPRDescription _ _ _ => fun o =>
      match o with Returns _ => True | Throws _ => False end
  | CreatePullRequest _ _ _ => fun o => o = Returns prResult
  | _ => fun _ => True
  end.

Definition is_commit (c : Call) : bool :=
  match c with GitCommit _ => true | _ => false end.

Definition is_stage (c : Call) : bool :=
  match c with GitAdd _ | GitAddAll => true | _ => false end.


(** *** Scripted environments for the examples *)

Record Script := mkScript {
  on_post : outcome Resp.ChatPostMessage;
  on_update : outcome Resp.ChatUpdate;
  on_checkout : outcome unit;
  on_analyze : outcome FixResult.t;
  on_status : outcome Resp.Status;
  on_push : outcome unit;
  on_create_pr : outcome GitHubPRResult.t;
  on_deploy : outcome DeploymentResult.t }.

(** Every call of a kind gets the answer of the script; the calls that
    the script does not name return. *)
Definition scripted (sc : Script) : Env := fun c _ =>
  match c return outcome (resp c) with
  | ChatPostMessage _ _ _ => on_post sc
  | ChatUpdate _ _ _ => on_update sc
  | GitCheckout _ => on_checkout sc
  | AnalyzeAndFix _ _ => on_analyze sc
  | GitStatus => on_status sc
  | GitCommit _ => Returns (Resp.mkCommit (lit "3f2a9c1d7e"))
  | GitPush _ => on_push sc
  | FormatPRDescription _ _ _ => Returns (lit "## Automated Fix")
  | CreatePullRequest _ _ _ => on_create_pr sc
  | WaitForDeployment _ _ => on_deploy sc
  | _ => Returns tt
  end.

Definition config0 : Config.t :=
  Config.mk (lit "ghp_token") (lit "octo")
    (lit "https://github.com/acme/site.git") (lit "main")
    (lit "/tmp/claude-autofix-repos/site").

Definition job0 : IssueJob.t :=
  IssueJob.mk (lit "job-1") (lit "Fix the typo in README.md") (lit "C123")
    (lit "1700000000.000100") (lit "U42") 1700000000 None.

Definition store0 : Store := mkStore None None None.

Definition posted : outcome Resp.ChatPostMessage :=
  Returns (Resp.mkPost true (Some (lit "1700000001.000200")) None).

Definition updated : outcome Resp.ChatUpdate :=
  Returns (Resp.mkUpdate true None).

Definition fix0 : FixResult.t :=
  FixResult.mk true (lit "A typo in the title.") (lit "Corrected the spelling.")
    [lit "README.md"]
    [CodeFix.mk (lit "README.md") (lit "spelling") (Some (lit "# Site")) None]
    None.


Definition pr0 : GitHubPRResult.t :=
  GitHubPRResult.mk true (Some 12%N)
    (Some (lit "https://github.com/acme/site/pull/12")) None.

Definition deployment0 : DeploymentResult.t :=
  DeploymentResult.mk true (Some (lit "https://site-git-fix.vercel.app"))
    (Some (lit "dpl_1")) (Some READY) None.

(** The script of scenario A of the specification: everything works. *)
Definition all_well : Script :=
  mkScript posted updated (Returns tt) (Returns fix0)
    (Returns (Resp.mkStatus [lit "README.md"] (Some (lit "fix/fix-the-typo-in-readmemd"))))
    (Returns tt) (Returns pr0) (Returns deployment0).

Example scenario_A :
  result_of (exec (scripted all_well)
               (Processor.processIssue ascii_host config0 job0) store0)
  = Returns (JobResult.mk (lit "job-1") completed
               (Some (lit "fix/fix-the-typo-in-readmemd"))
               (Some (lit "https://github.com/acme/site/pull/12"))
               (Some (lit "https://site-git-fix.vercel.app"))
               (Some fix0) (Some deployment0) None).
Proof. vm_compute. reflexivity. Qed.

Example scenario_A_calls :
  map (fun c => match c with
                | ChatPostMessage _ _ _ => 1 | ChatUpdate _ _ _ => 2
                | ReactionsAdd _ _ _ => 3 | FsAccess _ => 4 | FsMkdir _ => 5
                | GitClone _ _ => 6 | GitOpen _ => 7 | GitCheckout _ => 8
                | GitPull _ _ => 9 | GitDeleteLocalBranch _ _ => 10
                | GitCheckoutLocalBranch _ => 11 | GitAdd _ => 12
                | GitAddAll => 13 | GitStatus => 14 | GitCommit _ => 15
                | GitAddConfig _ _ => 16 | GitPush _ => 17
                | AnalyzeAndFix _ _ => 18 | FormatPRDescription _ _ _ => 19
                | CreatePullRequest _ _ _ => 20 | AddLabels _ _ => 21
                | WaitForDeployment _ _ => 22
                end)
      (trace_of (exec (scripted all_well)
                   (Processor.processIssue ascii_host config0 job0) store0))
  = [3; 1; 2; 4; 7; 8; 9; 2; 18; 2; 8; 9; 10; 11; 2; 12; 14; 15; 14;
     2; 16; 17; 2; 19; 20; 21; 2; 22; 2; 3].
Proof. vm_compute. reflexivity. Qed.

Arguments Processor.determineBranchType : simpl never.
Arguments Processor.generateCommitMessage : simpl never.
Arguments Processor.generatePRTitle : simpl never.
Arguments GitAutomationService.generateBranchName : simpl never.
Arguments GitAutomationService.getAuthenticatedUrl : simpl never.
Arguments Processor.Msg.system_error : simpl never.
Arguments Processor.Msg.critical_error : simpl never.
Arguments Processor.Msg.analysis_failed : simpl never.
Arguments Processor.Msg.no_changes : simpl never.
Arguments Processor.Msg.creating_branch : simpl never.
Arguments Processor.Msg.branch_failed : simpl never.
Arguments Processor.Msg.committing : simpl never.
Arguments Processor.Msg.commit_failed : simpl never.
Arguments Processor.Msg.pushing : simpl never.
Arguments Processor.Msg.pr_failed : simpl never.
Arguments Processor.Msg.deploying : simpl never.
Arguments Processor.Msg.deployed : simpl never.
Arguments Processor.Msg.partial_success : simpl never.
Arguments or_else : simpl never.
Arguments substring0 : simpl never.


(** *** Symbolic execution *)

(** What a contract says of one answer, as hypotheses. *)
Ltac use_contract H :=
  hnf in H;
  lazymatch type of H with
  | _ /\ _ =>
    let A := fresh "HK" in
    let B := fresh "HK" in
    pose proof (proj1 H) as A; pose proof (proj2 H) as B; clear H;
    use_contract A; use_contract B
  | True => clear H
  | False => exfalso; exact H
  | Returns _ = Returns _ => injection H as H; try subst
  | Returns _ = Throws _ => discriminate H
  | Throws _ = Returns _ => discriminate H
  | _ => idtac
  end.

Ltac head_of t :=
  lazymatch t with
  | ?f _ => head_of f
  | _ => t
  end.

(** The equation [E] contradicts what is known. *)
Ltac contradictory E :=
  repeat match goal with
         | H : ?l = _ |- _ =>
           lazymatch H with E => fail | _ => idtac end;
           lazymatch type of E with context [l] => rewrite H in E end
         end;
  cbn in E; first [discriminate E | congruence].

(** The value [x] decides the next step: it is known, it computes, or its
    cases are taken. *)
Ltac head_case x :=
  first
    [ match goal with
      | H : ?l = _ |- _ => lazymatch x with context [l] => rewrite H end
      end
    | let x' := eval cbn in x in
      let h := head_of x' in
      is_constructor h; progress (change x with x')
    | let h := head_of x in
      tryif is_constructor h then fail
      else (let E := fresh "E" in
            destruct x eqn:E; try (exfalso; contradictory E)) ].

Ltac scrutinee_of p k :=
  lazymatch p with
  | match ?x with _ => _ end => first [ scrutinee_of x k | k x ]
  | ?f _ => scrutinee_of f k
  end.

(** One step of a proof of [leaves]. *)
Ltac wp_step :=
  cbn [fst snd];
  lazymatch goal with
  | |- leaves _ _ (bind _ _ _) _ => apply leaves_bind
  | |- leaves _ _ (try_catch _ _ _) _ =>
    first [ apply leaves_swallow | apply leaves_try_catch ]
  | |- leaves ?K ?Q (call ?c ?s0) ?tr =>
    let o := fresh "o" in
    let Ho := fresh "Ho" in
    change (forall o, K c o -> Q (o, s0) (tr ++ [c]));
    intros o Ho; destruct o; use_contract Ho
  | |- leaves _ _ (ret _ _) _ => apply leaves_ret
  | |- leaves _ _ (throw _ _) _ => apply leaves_throw
  | |- leaves _ _ (get _) _ => apply leaves_get
  | |- leaves _ _ (put _ _) _ => apply leaves_put
  | |- leaves ?K ?Q ?p ?tr =>
    first
      [ scrutinee_of p ltac:(fun x => head_case x)
      | let h := head_of p in
        let p' := eval cbv beta zeta delta [h] in p in
        progress (change (leaves K Q p' tr)) ]
  end.

Ltac wp := repeat wp_step.

(** The end of a path: the parts of the postcondition, one by one. *)
Ltac close_leaf :=
  cbn; repeat split;
  try reflexivity; try discriminate; try congruence;
  try (repeat constructor; fail);
  try (repeat first [apply ends_with_refl | apply ends_with_cons]; fail);
  try (repeat first [left; reflexivity | right]; fail).

(** One step of a proof of [issues]; [side] proves that a call is
    allowed. *)
Ltac issues_step side :=
  cbn [fst snd];
  lazymatch goal with
  | |- issues _ (bind _ _ _) => apply issues_bind; [| intros ? ?]
  | |- issues _ (try_catch _ _ _) => apply issues_try_catch; [| intros ? ?]
  | |- issues _ (call _ _) => apply issues_call; side
  | |- issues _ (ret _ _) => exact I
  | |- issues _ (throw _ _) => exact I
  | |- issues _ (get _) => exact I
  | |- issues _ (put _ _) => exact I
  | |- issues ?P ?p =>
    first
      [ scrutinee_of p ltac:(fun x => head_case x)
      | let h := head_of p in
        let p' := eval cbv beta zeta delta [h] in p in
        progress (change (issues P p')) ]
  end.

Lemma generateBranchName_cons (host : Host) (options : BranchOptions.t) :
  exists c b, GitAutomationService.generateBranchName host options = c :: b.
Proof.
  unfold GitAutomationService.generateBranchName.
  destruct (BranchOptions.type options); eexists; eexists; reflexivity.
Qed.

(** The name of the branch is never empty. *)
Ltac name_branch host job c0 b0 Eb :=
  destruct (generateBranchName_cons host
              (BranchOptions.mk
                 (Processor.determineBranchType host (IssueJob.text job))
                 (substring0 50 (IssueJob.text job)) None)) as [c0 [b0 Eb]].

Definition not_commit (c : Call) : Prop := is_commit c = false.

(** After the edit that announces the push, no call is a commit. *)
Ltac no_commit_later :=
  repeat issues_step ltac:(reflexivity).

(** The call returned. *)
Definition returned {A} (o : outcome A) : bool :=
  match o with
  | Returns _ => true
  | Throws _ => false
  end.

(** ** The exits of the pipeline *)

Section Exits.

Variable host : Host.
Variable config : Config.t.
Variable env : Env.
Variable job : IssueJob.t.
Variable s : Store.

(** The configuration handed to the code generation. *)
Definition agent_config : ClaudeAgentConfig.t :=
  ClaudeAgentConfig.mk Processor.Msg.systemPrompt
    (GitAutomationService.getRepoPath config) None (Some 8000%N).


(** C6, as the code has it. When Slack accepts the status post and every
    edit, the repository is prepared, the code generation succeeds with at
    least one changed file, the branch is created, staging, status and
    commit do not throw, but [pushBranch] returns [false] (the credential
    helper cannot be configured, or the push is refused), [processIssue]
    returns a [failed] result whose error is "Failed to push to remote", a
    text that mentions the push, and which still carries the [FixResult];
    its last call is the edit that reports the failure. *)
Theorem push_failure_fails (ts0 : jsstring) (fixResult : FixResult.t) :
  ts0 <> [] ->
  Obeys env (slack_accepts ts0) ->
  Obeys env repo_syncs ->
  Obeys env (analysis_gives fixResult) ->
  Obeys env branch_and_stage_work ->
  Obeys env commit_works ->
  Obeys env credentials_rejected \/ Obeys env push_rejected ->
  FixResult.success fixResult = true ->
  FixResult.filesChanged fixResult <> [] ->
  let out := exec env (Processor.processIssue host config job) s in
  result_of out
  = Returns (JobResult.mk (IssueJob.id job) failed None None None
               (Some fixResult) None (Some (lit "Failed to push to remote")))
  /\ includes (lit "push") (lit "Failed to push to remote") = true
  /\ ends_with
       [ChatUpdate (IssueJob.channel job) ts0 Processor.Msg.push_failed]
       (trace_of out).
Proof.
  intros Hts H1 H2 H3 H4 H5 H6 Hs Hf out.
  pose proof (Obeys_both (Obeys_both (Obeys_both (Obeys_both H1 H2) H3) H4) H5)
    as HK.
  assert (Hm : includes (lit "push") (lit "Failed to push to remote") = true)
    by reflexivity.
  cut (result_of out = Returns (JobResult.mk (IssueJob.id job) failed None None None
                                  (Some fixResult) None
                                  (Some (lit "Failed to push to remote")))
       /\ ends_with
            [ChatUpdate (IssueJob.channel job) ts0 Processor.Msg.push_failed]
            (trace_of out)); [tauto|].
  unfold out, result_of, trace_of, exec.
  destruct ts0 as [|t0 ts0']; [congruence|].
  destruct (FixResult.filesChanged fixResult) as [|f fs] eqn:Ef; [congruence|].
  name_branch host job c0 b0 Eb.
  destruct H6 as [H6 | H6].
  - apply (@leaves_run _ _ (fun r tr => fst r = _ /\ ends_with _ tr) env
             (Obeys_both HK H6)).
    wp; close_leaf.
  - apply (@leaves_run _ _ (fun r tr => fst r = _ /\ ends_with _ tr) env
             (Obeys_both HK H6)).
    wp; close_leaf.
Qed.

(** C5, as the code has it. When Slack accepts the status post and every
    edit, the repository is prepared, the code generation succeeds with at
    least one changed file, the branch is created, staging, status, commit
    and push do not throw, and the description of the pull request is
    formatted, but the creation of the pull request fails ([success] is
    false or [prUrl] is missing), [processIssue] returns a [completed]
    result with the branch name, without pull-request URL, with the
    [FixResult], and whose error is the error of the pull-request result,
    whatever it is: it is present exactly when the pull-request service
    gave one; its last call is the edit that reports the failure. *)
Theorem pr_failure_completes (ts0 : jsstring) (fixResult : FixResult.t)
  (prResult : GitHubPRResult.t) :
  ts0 <> [] ->
  Obeys env (slack_accepts ts0) ->
  Obeys env repo_syncs ->
  Obeys env (analysis_gives fixResult) ->
  Obeys env branch_and_stage_work ->
  Obeys env commit_works ->
  Obeys env push_works ->
  Obeys env (pr_gives prResult) ->
  FixResult.success fixResult = true ->
  FixResult.filesChanged fixResult <> [] ->
  GitHubPRResult.success prResult = false
  \/ truthy (GitHubPRResult.prUrl prResult) = false ->
  let out := exec env (Processor.processIssue host config job) s in
  let name := derived_branch_name host (IssueJob.text job) in
  result_of out
  = Returns (JobResult.mk (IssueJob.id job) completed (Some name) None None
               (Some fixResult) None (GitHubPRResult.error prResult))
  /\ ends_with
       [ChatUpdate (IssueJob.channel job) ts0 (Processor.Msg.pr_failed prResult name)]
       (trace_of out).
Proof.
  intros Hts H1 H2 H3 H4 H5 H6 H7 Hs Hf Hpr out name.
  pose proof (Obeys_both (Obeys_both (Obeys_both (Obeys_both (Obeys_both
                (Obeys_both H1 H2) H3) H4) H5) H6) H7) as HK.
  unfold out, name, derived_branch_name, result_of, trace_of, exec.
  name_branch host job c0 b0 Eb. rewrite Eb.
  apply (@leaves_run _ _ (fun r tr => fst r = _ /\ ends_with _ tr) env HK).
  destruct ts0 as [|t0 ts0']; [congruence|].
  destruct (FixResult.filesChanged fixResult) as [|f fs] eqn:Ef; [congruence|].
  destruct Hpr as [Hpr | Hpr].
  - wp; close_leaf.
  - destruct (GitHubPRResult.prUrl prResult) as [[|u0 u]|] eqn:Eu;
      try discriminate Hpr; wp; close_leaf.
Qed.

(** C7, as the code has it. When the staging returns and the status asked
    after it reports no changed file, [commitChanges] calls no
    [git commit]: it asks the status once more, through
    [getCurrentBranch], and returns [success = true] with the current
    branch of that second status ("unknown" when it has none) and without
    hash when the second status returns, and [success = false] with the
    text of the exception when it throws. In a run of [processIssue] where
    Slack accepts the status post and every edit, the repository is
    prepared, the code generation succeeds with changed files, the branch is
    created, the staging returns and every [git status] answers the same
    status without changed files, the job goes on to the push step with
    that result, and no [git commit] is called at all. *)
Theorem clean_status_commit_succeeds (ts0 : jsstring) (fixResult : FixResult.t)
  (st : Resp.Status) (message : jsstring) (files : list jsstring)
  (s1 : Store) (g : jsstring) (tr1 : list Call) :
  let stage := match files with [] => GitAddAll | _ :: _ => GitAdd files end in
  let committed :=
    run env (GitAutomationService.commitChanges message files s1) tr1 in
  let commitResult :=
    GitCommitResult.mk true None
      (Some (or_else (Resp.current st) (lit "unknown"))) None in
  let out := exec env (Processor.processIssue host config job) s in
  (git s1 = Some g ->
   returned (env stage tr1) = true ->
   env GitStatus (tr1 ++ [stage]) = Returns st ->
   Resp.files st = [] ->
   snd committed = tr1 ++ [stage; GitStatus; GitStatus]
   /\ snd (fst committed) = s1
   /\ fst (fst committed)
      = match env GitStatus (tr1 ++ [stage; GitStatus]) with
        | Returns st2 =>
          Returns (GitCommitResult.mk true None
                     (Some (or_else (Resp.current st2) (lit "unknown"))) None)
        | Throws e =>
          Returns (GitCommitResult.mk false None None (Some (error_text e)))
        end)
  /\ (ts0 <> [] ->
      Obeys env (slack_accepts ts0) ->
      Obeys env repo_syncs ->
      Obeys env (analysis_gives fixResult) ->
      Obeys env branch_and_stage_work ->
      Obeys env (status_gives st) ->
      FixResult.success fixResult = true ->
      FixResult.filesChanged fixResult <> [] ->
      Resp.files st = [] ->
      In (ChatUpdate (IssueJob.channel job) ts0
            (Processor.Msg.pushing (derived_branch_name host (IssueJob.text job))
               commitResult))
         (trace_of out)
      /\ Forall not_commit (trace_of out)).
Proof.
  intros stage committed commitResult out. split.
  - intros Hg Hr Hst Hf. unfold committed.
    assert (E : tr1 ++ [stage; GitStatus] = (tr1 ++ [stage]) ++ [GitStatus])
      by (rewrite <- app_assoc; reflexivity).
    rewrite E. clear E.
    assert (E : tr1 ++ [stage; GitStatus; GitStatus]
                = ((tr1 ++ [stage]) ++ [GitStatus]) ++ [GitStatus])
      by (rewrite <- !app_assoc; reflexivity).
    rewrite E. clear E.
    destruct files as [|f fs]; cbn; rewrite Hg; cbn; fold stage;
      (destruct (env stage tr1) as [[]|e0]; [|discriminate Hr]); cbn;
      unfold stage in *; rewrite Hst; cbn; rewrite Hf; cbn; rewrite Hg; cbn;
      match goal with
      | |- context [match env GitStatus ?h with _ => _ end] =>
        destruct (env GitStatus h) as [st2|e2]
      end; cbn; repeat split.
  - intros Hts H1 H2 H3 H4 H5 Hs Hf Hst.
    pose proof (Obeys_both (Obeys_both (Obeys_both (Obeys_both H1 H2) H3) H4) H5)
      as HK.
    unfold out, commitResult, derived_branch_name, trace_of, exec.
    name_branch host job c0 b0 Eb. rewrite Eb.
    apply (@leaves_run _ _ (fun r tr => In _ tr /\ Forall _ tr) env HK).
    destruct ts0 as [|t0 ts0']; [congruence|].
    destruct (FixResult.filesChanged fixResult) as [|f fs] eqn:Ef; [congruence|].
    repeat (cbn [fst snd];
            lazymatch goal with
            | |- leaves _ _ (bind (GitAutomationService.pushBranch _) _ _) _ => fail
            | |- _ => wp_step
            end).
    all: cbn [fst snd].
    all: apply leaves_of_issues with (P := not_commit); [no_commit_later|].
    all: intros [[a'|e'] s'] ext Hext; cbn [fst snd].
    all: try (apply leaves_of_issues with (P := not_commit); [no_commit_later|];
              intros r' ext' Hext').
    all: split;
      [ cbn; repeat first [left; reflexivity | right]
      | cbn;
        repeat first [ apply Forall_cons; [reflexivity|]
                     | apply Forall_app; split
                     | assumption
                     | apply Forall_nil ] ].
Qed.

End Exits.

(** ** Staging *)





















Section Staging.

Variable host : Host.
Variable config : Config.t.
Variable env : Env.




(** *** The files that [processIssue] stages *)







(** *** Staging comes first *)







End Staging.

(** ** The top-level handler *)

(** Slack took the edit. *)
Definition edit_accepted (o : outcome Resp.ChatUpdate) : bool :=
  match o with
  | Returns r => Resp.update_ok r
  | Throws _ => false
  end.

(** Slack took the post. *)
Definition post_accepted (o : outcome Resp.ChatPostMessage) : bool :=
  match o with
  | Returns r => Resp.post_ok r && truthy (Resp.post_ts r)
  | Throws _ => false
  end.

Section Handler.

Variable host : Host.
Variable config : Config.t.
Variable env : Env.
Variable job : IssueJob.t.
Variable s : Store.

(** [processIssue] is its [try] block followed by its [catch] block. *)
Lemma processIssue_unfold :
  Processor.processIssue host config job s
  = pbind (Processor.pipeline host config job (mkStore (git s) None None))
      (fun rs =>
         match fst rs with
         | Returns a => Ret (Returns a, snd rs)
         | Throws e => Processor.on_error job e (snd rs)
         end).
Proof. reflexivity. Qed.

(** C1, as the code has it. An exception raised inside the [try] block of
    [processIssue] is caught. If the status message exists, one edit of it
    is attempted, and if that edit fails exactly one new message is posted;
    if the status message does not exist yet, nothing is sent. Whenever the
    edit succeeds, or the new message is accepted, or nothing is sent,
    [processIssue] returns a [failed] result whose error is the text of the
    exception. *)
Theorem caught_exception_reported (e : exn) (s1 : Store) (tr1 : list Call) :
  exec env (Processor.pipeline host config job) (mkStore (git s) None None)
  = (Throws e, s1, tr1) ->
  let out := exec env (Processor.processIssue host config job) s in
  let failure :=
    Returns (JobResult.mk (IssueJob.id job) failed None None None None None
               (Some (error_text e))) in
  match statusMessageTs s1 with
  | Some (c :: ts) =>
    let edit :=
      ChatUpdate (IssueJob.channel job) (c :: ts)
        (Processor.Msg.system_error e (branchName s1)) in
    let post :=
      ChatPostMessage (IssueJob.channel job) (Processor.Msg.critical_error e)
        (Some (IssueJob.threadTs job)) in
    if edit_accepted (env edit tr1)
    then trace_of out = tr1 ++ [edit] /\ result_of out = failure
    else trace_of out = tr1 ++ [edit; post]
         /\ (post_accepted (env post (tr1 ++ [edit])) = true ->
             result_of out = failure)
  | _ => trace_of out = tr1 /\ result_of out = failure
  end.
Proof.
  intros H out failure. unfold out, failure, trace_of, result_of, exec in *.
  rewrite processIssue_unfold, run_pbind, H. cbn [fst snd].
  unfold Processor.on_error.
  destruct (statusMessageTs s1) as [[|c ts]|] eqn:Ets.
  - cbn. rewrite Ets. cbn. split; reflexivity.
  - cbn. rewrite Ets. cbn.
    set (edit := ChatUpdate (IssueJob.channel job) (c :: ts)
                   (Processor.Msg.system_error e (branchName s1))).
    set (post := ChatPostMessage (IssueJob.channel job)
                   (Processor.Msg.critical_error e)
                   (Some (IssueJob.threadTs job))).
    destruct (env edit tr1) as [r|e'] eqn:Eedit; cbn.
    + destruct (Resp.update_ok r) eqn:Eok; cbn.
      * split; reflexivity.
      * destruct (env post (tr1 ++ [edit])) as [r'|e''] eqn:Epost; cbn.
        -- destruct (Resp.post_ok r'); cbn.
           ++ destruct (Resp.post_ts r') as [[|c' ts']|]; cbn;
                rewrite <- app_assoc; (split; [reflexivity|]);
                intros; (reflexivity || discriminate).
           ++ rewrite <- app_assoc. split; [reflexivity | discriminate].
        -- rewrite <- app_assoc. split; [reflexivity | discriminate].
    + destruct (env post (tr1 ++ [edit])) as [r'|e''] eqn:Epost; cbn.
      * destruct (Resp.post_ok r'); cbn.
        -- destruct (Resp.post_ts r') as [[|c' ts']|]; cbn;
             rewrite <- app_assoc; (split; [reflexivity|]);
             intros; (reflexivity || discriminate).
        -- rewrite <- app_assoc. split; [reflexivity | discriminate].
      * rewrite <- app_assoc. split; [reflexivity | discriminate].
  - cbn. rewrite Ets. cbn. split; reflexivity.
Qed.

End Handler.

(** ** Failed results *)

(** Every exception that a call throws has a text, and a code generation
    that reports a failure says why. *)
Definition informative : Contract := fun c =>
  match c return outcome (resp c) -> Prop with
  | AnalyzeAndFix _ _ => fun o =>
      match o with
      | Returns r =>
        FixResult.success r = false -> truthy (FixResult.error r) = true
      | Throws e => error_text e <> []
      end
  | _ => fun o =>
      match o with
      | Returns _ => True
      | Throws e => error_text e <> []
      end
  end.

(** A [failed] result has an error text. *)
Definition error_present (jr : JobResult.t) : Prop :=
  JobResult.status jr = failed -> truthy (JobResult.error jr) = true.

Lemma truthy_text (t : jsstring) : t <> [] -> truthy (Some t) = true.
Proof. destruct t; [congruence | reflexivity]. Qed.

(** The end of a path of the pipeline: the result has its error, or the
    exception has its text. *)
Ltac error_leaf :=
  cbn [fst snd]; unfold error_present; cbn;
  first
    [ exact I
    | assumption
    | discriminate
    | let Hst := fresh "Hst" in
      intros Hst;
      first
        [ discriminate Hst
        | reflexivity
        | apply truthy_text; assumption
        | match goal with
          | H : FixResult.success ?a = false -> _, E : negb (FixResult.success ?a) = true |- _ =>
            apply H; destruct (FixResult.success a); [discriminate E | reflexivity]
          end ]
    | vm_compute; discriminate ].

(** What the [try] block leaves to the [catch] block: a result with its
    error, or an exception with its text. *)
Definition pipeline_ok (rs : outcome JobResult.t * Store) (_ : list Call) : Prop :=
  match fst rs with
  | Returns jr => error_present jr
  | Throws e => error_text e <> []
  end.

(** A step of the pipeline is run up to the next step, whose lemma is
    [next]. *)
Ltac stage step next :=
  repeat (cbn [fst snd];
          lazymatch goal with
          | |- leaves _ _ ?p _ =>
            let h := head_of p in
            first [ constr_eq h step; apply next | wp_step ]
          | |- _ => wp_step
          end);
  unfold pipeline_ok; error_leaf.

Section FailedResults.

Variable host : Host.
Variable config : Config.t.
Variable env : Env.
Variable job : IssueJob.t.

Lemma track_deployment_ok ts fr bn cr url (s : Store) (tr : list Call) :
  leaves informative pipeline_ok
    (Processor.track_deployment job ts fr bn cr url s) tr.
Proof. stage I I. Qed.

Lemma create_pr_ok ts fr ty bn cr (s : Store) (tr : list Call) :
  leaves informative pipeline_ok (Processor.create_pr job ts fr ty bn cr s) tr.
Proof. stage Processor.track_deployment track_deployment_ok. Qed.

Lemma push_ok ts fr ty bn cr (s : Store) (tr : list Call) :
  leaves informative pipeline_ok (Processor.push job ts fr ty bn cr s) tr.
Proof. stage Processor.create_pr create_pr_ok. Qed.

Lemma commit_ok ts fr ty bn (s : Store) (tr : list Call) :
  leaves informative pipeline_ok (Processor.commit job ts fr ty bn s) tr.
Proof. stage Processor.push push_ok. Qed.

Lemma branch_ok ts fr (s : Store) (tr : list Call) :
  leaves informative pipeline_ok (Processor.branch host config job ts fr s) tr.
Proof. name_branch host job c0 b0 Eb. stage Processor.commit commit_ok. Qed.

Lemma pipeline_is_ok (s : Store) (tr : list Call) :
  leaves informative pipeline_ok (Processor.pipeline host config job s) tr.
Proof. stage Processor.branch branch_ok. Qed.

Lemma on_error_ok (e : exn) (s : Store) (tr : list Call) :
  error_text e <> [] ->
  leaves informative
    (fun r _ => match fst r with
                | Returns jr => error_present jr
                | Throws _ => True
                end)
    (Processor.on_error job e s) tr.
Proof. intros He. wp; error_leaf. Qed.

(** C2, as the code has it. When every exception thrown by a call has a
    non-empty text and a [FixResult] with [success = false] has a non-empty
    error, every result that [processIssue] returns with the status
    [failed] has a non-empty error. *)
Theorem failed_result_has_error (s : Store) (jr : JobResult.t) :
  Obeys env informative ->
  result_of (exec env (Processor.processIssue host config job) s) = Returns jr ->
  JobResult.status jr = failed ->
  truthy (JobResult.error jr) = true.
Proof.
  intros HK.
  cut (match result_of (exec env (Processor.processIssue host config job) s) with
       | Returns jr' => error_present jr'
       | Throws _ => True
       end).
  { intros H E. rewrite E in H. exact H. }
  unfold result_of, exec.
  apply (@leaves_run _ _
           (fun r _ => match fst r with
                       | Returns jr' => error_present jr'
                       | Throws _ => True
                       end) env HK).
  repeat (cbn [fst snd];
          lazymatch goal with
          | |- leaves _ _ (try_catch (Processor.pipeline _ _ _) _ _) _ => fail
          | |- _ => wp_step
          end).
  cbn [fst snd].
  apply leaves_try_catch_via with (R := pipeline_ok).
  - apply pipeline_is_ok.
  - intros a s' tr' H. exact H.
  - intros e s' tr' He. apply on_error_ok. exact He.
Qed.

End FailedResults.

(** ** Concrete runs *)

Definition with_analysis (a : outcome FixResult.t) : Script :=
  mkScript posted updated (Returns tt) a
    (Returns (Resp.mkStatus [lit "README.md"] (Some (lit "fix/fix-the-typo-in-readmemd"))))
    (Returns tt) (Returns pr0) (Returns deployment0).

Definition with_checkout (a : outcome unit) : Script :=
  mkScript posted updated a (Returns fix0)
    (Returns (Resp.mkStatus [lit "README.md"] (Some (lit "fix/fix-the-typo-in-readmemd"))))
    (Returns tt) (Returns pr0) (Returns deployment0).

Definition with_pr (a : GitHubPRResult.t) : Script :=
  mkScript posted updated (Returns tt) (Returns fix0)
    (Returns (Resp.mkStatus [lit "README.md"] (Some (lit "fix/fix-the-typo-in-readmemd"))))
    (Returns tt) (Returns a) (Returns deployment0).

Definition clean_status : Resp.Status :=
  Resp.mkStatus [] (Some (lit "fix/fix-the-typo-in-readmemd")).

Definition nothing_staged : Script :=
  mkScript posted updated (Returns tt) (Returns fix0) (Returns clean_status)
    (Returns tt) (Returns pr0) (Returns deployment0).

Definition post_refused : Script :=
  mkScript (Throws (JsError (lit "invalid_auth"))) updated (Returns tt)
    (Returns fix0) (Returns clean_status) (Returns tt) (Returns pr0)
    (Returns deployment0).

Definition is_edit (c : Call) : bool :=
  match c with ChatUpdate _ _ _ => true | _ => false end.

(** Slack accepts the first post, then refuses every edit and every later
    post. *)
Definition slack_goes_down : Env := fun c tr =>
  match c return outcome (resp c) with
  | ChatPostMessage _ _ _ =>
    if existsb is_edit tr then Throws (JsError (lit "not_in_channel")) else posted
  | ChatUpdate _ _ _ => Throws (JsError (lit "ratelimited"))
  | c' => scripted all_well c' tr
  end.

Ltac obeys := intros c tr; destruct c; cbn; auto.

(** C1, as the specification states it, fails. When the edit of the
    handler and the post that replaces it both fail, the exception of the
    post leaves [processIssue]; and when the first post of the status
    message fails, the handler attempts no edit at all. *)
Lemma exception_escapes_processIssue :
  result_of (exec slack_goes_down
               (Processor.processIssue ascii_host config0 job0) store0)
  = Throws (JsError (lit "not_in_channel"))
  /\ result_of (exec (scripted post_refused)
                  (Processor.processIssue ascii_host config0 job0) store0)
     = Returns (JobResult.mk (lit "job-1") failed None None None None None
                  (Some (lit "invalid_auth")))
  /\ existsb is_edit
       (trace_of (exec (scripted post_refused)
                    (Processor.processIssue ascii_host config0 job0) store0))
     = false.
Proof. repeat split; vm_compute; reflexivity. Qed.

Definition checkout_fails : Env :=
  scripted (with_checkout (Throws (JsError (lit "pathspec 'main' did not match")))).

Lemma caught_exception_reported_witness :
  result_of (exec checkout_fails
               (Processor.processIssue ascii_host config0 job0) store0)
  = Returns (JobResult.mk (lit "job-1") failed None None None None None
               (Some (lit "pathspec 'main' did not match"))).
Proof.
  pose proof (@caught_exception_reported ascii_host config0 checkout_fails job0 store0
                (JsError (lit "pathspec 'main' did not match"))
                (store_of (exec checkout_fails
                             (Processor.pipeline ascii_host config0 job0)
                             (mkStore None None None)))
                (trace_of (exec checkout_fails
                             (Processor.pipeline ascii_host config0 job0)
                             (mkStore None None None)))) as H.
  assert (E : exec checkout_fails (Processor.pipeline ascii_host config0 job0)
                (mkStore (git store0) None None)
              = (Throws (JsError (lit "pathspec 'main' did not match")),
                 store_of (exec checkout_fails
                             (Processor.pipeline ascii_host config0 job0)
                             (mkStore None None None)),
                 trace_of (exec checkout_fails
                             (Processor.pipeline ascii_host config0 job0)
                             (mkStore None None None))))
    by (vm_compute; reflexivity).
  specialize (H E). vm_compute in H. vm_compute. exact (proj2 H).
Defined.

(** C2, as the specification states it, fails. A code generation that
    fails without an error text gives a [failed] result without error, and
    an exception whose message is empty gives a [failed] result whose error
    is the empty string. *)
Lemma failed_result_without_error :
  result_of (exec (scripted (with_analysis
                               (Returns (FixResult.mk false [] [] [] [] None))))
               (Processor.processIssue ascii_host config0 job0) store0)
  = Returns (JobResult.mk (lit "job-1") failed None None None None None None)
  /\ result_of (exec (scripted (with_checkout (Throws (JsError []))))
                  (Processor.processIssue ascii_host config0 job0) store0)
     = Returns (JobResult.mk (lit "job-1") failed None None None None None
                  (Some [])).
Proof. split; vm_compute; reflexivity. Qed.

(** Scenario B of the specification. *)
Definition no_intent : FixResult.t :=
  FixResult.mk false [] [] [] [] (Some (lit "cannot determine intent")).

Lemma failed_result_has_error_witness :
  truthy (JobResult.error
            (JobResult.mk (lit "job-1") failed None None None None None
               (Some (lit "cannot determine intent")))) = true.
Proof.
  apply (@failed_result_has_error ascii_host config0
           (scripted (with_analysis (Returns no_intent))) job0 store0).
  - obeys.
  - vm_compute. reflexivity.
  - reflexivity.
Defined.


(** C5, as the specification states it, fails. A pull-request result
    that reports the failure without an error text, or that reports a
    success without URL, gives a [completed] result without error. *)
Lemma pr_failure_without_error_text :
  result_of (exec (scripted (with_pr (GitHubPRResult.mk false None None None)))
               (Processor.processIssue ascii_host config0 job0) store0)
  = Returns (JobResult.mk (lit "job-1") completed
               (Some (lit "fix/fix-the-typo-in-readmemd")) None None
               (Some fix0) None None)
  /\ result_of (exec (scripted (with_pr (GitHubPRResult.mk true (Some 12%N) None None)))
                  (Processor.processIssue ascii_host config0 job0) store0)
     = Returns (JobResult.mk (lit "job-1") completed
                  (Some (lit "fix/fix-the-typo-in-readmemd")) None None
                  (Some fix0) None None).
Proof. split; vm_compute; reflexivity. Qed.

Definition pr_refused : GitHubPRResult.t :=
  GitHubPRResult.mk false None None (Some (lit "Validation Failed")).

Lemma pr_failure_completes_witness :
  result_of (exec (scripted (with_pr pr_refused))
               (Processor.processIssue ascii_host config0 job0) store0)
  = Returns (JobResult.mk (IssueJob.id job0) completed
               (Some (derived_branch_name ascii_host (IssueJob.text job0)))
               None None (Some fix0) None (GitHubPRResult.error pr_refused)).
Proof.
  refine (proj1 (@pr_failure_completes ascii_host config0 _ job0 store0
                   (lit "1700000001.000200") fix0 pr_refused
                   _ _ _ _ _ _ _ _ _ _ _)).
  - discriminate.
  - obeys.
  - obeys.
  - obeys.
  - obeys.
  - obeys.
  - obeys.
  - obeys.
  - reflexivity.
  - discriminate.
  - left. reflexivity.
Defined.

(** Scenario C of the specification: two files, the push is refused. *)
Definition fix2 : FixResult.t :=
  FixResult.mk true (lit "Two files are involved.") (lit "Changed both.")
    [lit "src/a.ts"; lit "src/b.ts"] [] None.

Definition push_refused : Script :=
  mkScript posted updated (Returns tt) (Returns fix2)
    (Returns (Resp.mkStatus [lit "src/a.ts"; lit "src/b.ts"] (Some (lit "fix/x"))))
    (Throws (JsError (lit "Authentication failed")))
    (Returns pr0) (Returns deployment0).

Lemma push_failure_fails_witness :
  result_of (exec (scripted push_refused)
               (Processor.processIssue ascii_host config0 job0) store0)
  = Returns (JobResult.mk (IssueJob.id job0) failed None None None
               (Some fix2) None (Some (lit "Failed to push to remote"))).
Proof.
  refine (proj1 (@push_failure_fails ascii_host config0 _ job0 store0
                   (lit "1700000001.000200") fix2 _ _ _ _ _ _ _ _ _)).
  - discriminate.
  - obeys.
  - obeys.
  - obeys.
  - obeys.
  - obeys.
  - right. obeys.
  - reflexivity.
  - discriminate.
Defined.

Definition store_ready : Store :=
  mkStore (Some (lit "/tmp/claude-autofix-repos/site")) None None.

Lemma clean_status_commit_succeeds_witness :
  fst (fst (run (scripted nothing_staged)
              (GitAutomationService.commitChanges (lit "commit message")
                 [lit "README.md"] store_ready) []))
  = Returns (GitCommitResult.mk true None
               (Some (lit "fix/fix-the-typo-in-readmemd")) None)
  /\ Forall not_commit
       (trace_of (exec (scripted nothing_staged)
                    (Processor.processIssue ascii_host config0 job0) store0)).
Proof.
  pose proof (@clean_status_commit_succeeds ascii_host config0
                (scripted nothing_staged) job0 store0
                (lit "1700000001.000200") fix0 clean_status
                (lit "commit message") [lit "README.md"] store_ready
                (lit "/tmp/claude-autofix-repos/site") []) as [HA HB].
  split.
  - specialize (HA eq_refl eq_refl eq_refl eq_refl).
    vm_compute in HA. vm_compute. exact (proj2 (proj2 HA)).
  - refine (proj2 (HB _ _ _ _ _ _ _ _ _)).
    + discriminate.
    + obeys.
    + obeys.
    + obeys.
    + obeys.
    + obeys.
    + reflexivity.
    + discriminate.
    + reflexivity.
Defined.


(** *** Runs in which a late call fails *)

(** The second status of a commit throws. *)
Definition is_status (c : Call) : bool :=
  match c with GitStatus => true | _ => false end.

Definition index_unreadable : exn := JsError (lit "fatal: unable to read index").

Definition second_status_throws : Env := fun c tr =>
  match c return outcome (resp c) with
  | GitStatus =>
    if existsb is_status tr then Throws index_unreadable else Returns clean_status
  | c' => scripted all_well c' tr
  end.

(** C7, as the specification states it, fails. The status after the
    staging reports no changed file, but the status that
    [getCurrentBranch] asks again throws: [commitChanges] returns
    [success = false], and the job fails at the commit step. *)
Lemma clean_status_commit_fails :
  second_status_throws GitStatus [GitAdd [lit "README.md"]] = Returns clean_status
  /\ Resp.files clean_status = []
  /\ result_of (exec second_status_throws
                  (GitAutomationService.commitChanges (lit "commit message")
                     [lit "README.md"])
                  store_ready)
     = Returns (GitCommitResult.mk false None None
                  (Some (lit "fatal: unable to read index")))
  /\ result_of (exec second_status_throws
                  (Processor.processIssue ascii_host config0 job0) store0)
     = Returns (JobResult.mk (lit "job-1") failed None None None (Some fix0) None
                  (Some (lit "fatal: unable to read index"))).
Proof. repeat split; vm_compute; reflexivity. Qed.

(** Slack accepts the status post, and the edits until a call that
    satisfies [p] has been made; from then on it refuses every edit. *)
Definition edits_refused_after (p : Call -> bool) (sc : Script) : Env := fun c tr =>
  match c return outcome (resp c) with
  | ChatUpdate _ _ _ =>
    if existsb p tr then Throws (JsError (lit "ratelimited")) else on_update sc
  | c' => scripted sc c' tr
  end.


Definition is_push (c : Call) : bool :=
  match c with GitPush _ => true | _ => false end.


(** C6, as the specification states it, fails. The push is refused, and
    Slack refuses the edit that reports it: the job is reported [failed]
    with the text of Slack's error, which does not mention the push, and
    without the [FixResult]. *)
Lemma push_failure_edit_refused :
  result_of (exec (edits_refused_after is_push push_refused)
               (Processor.processIssue ascii_host config0 job0) store0)
  = Returns (JobResult.mk (lit "job-1") failed None None None None None
               (Some (lit "ratelimited")))
  /\ includes (lit "push") (lit "ratelimited") = false
  /\ existsb is_push
       (trace_of (exec (edits_refused_after is_push push_refused)
                    (Processor.processIssue ascii_host config0 job0) store0))
     = true.
Proof. repeat split; vm_compute; reflexivity. Qed.


(** * Further code of the services *)

(** ** [SlackService] on its own *)

Section SlackServiceFacts.

Variable env : Env.

(** X1. [addReaction] makes its one call and returns, whatever the call does:
    it never throws and leaves the store alone. *)
Theorem addReaction_never_throws (channel timestamp emoji : jsstring)
  (s : Store) (tr : list Call) :
  run env (SlackService.addReaction channel timestamp emoji s) tr
  = (Returns tt, s, tr ++ [ReactionsAdd channel timestamp emoji]).
Proof.
  cbn. destruct (env (ReactionsAdd channel timestamp emoji) tr); reflexivity.
Qed.

(** X2. [postMessage] makes exactly one call and leaves the store alone. An
    exception of the client is thrown again as it is. A response that is
    [ok] and has a timestamp that is not empty gives that timestamp; any
    other response gives an error whose message is "Slack API error: "
    followed by the error of the response, or by "Unknown error" when there
    is none. *)
Theorem postMessage_outcome (channel text : jsstring) (threadTs : option jsstring)
  (s : Store) (tr : list Call) :
  let c := ChatPostMessage channel text threadTs in
  let out := run env (SlackService.postMessage channel text threadTs s) tr in
  snd out = tr ++ [c]
  /\ snd (fst out) = s
  /\ match env c tr with
     | Throws e => fst (fst out) = Throws e
     | Returns r =>
       if Resp.post_ok r && truthy (Resp.post_ts r)
       then exists ts,
           Resp.post_ts r = Some ts /\ ts <> [] /\ fst (fst out) = Returns ts
       else fst (fst out)
            = Throws (JsError (lit "Slack API error: "
                               ++ match Resp.post_error r with
                                  | Some (c0 :: m) => c0 :: m
                                  | _ => lit "Unknown error"
                                  end))
     end.
Proof.
  cbn. destruct (env (ChatPostMessage channel text threadTs) tr) as [r|e] eqn:E;
    cbn; [|repeat split].
  destruct (Resp.post_ok r) eqn:Eok; cbn; [|repeat split].
  destruct (Resp.post_ts r) as [[|c0 ts]|] eqn:Ets; cbn;
    (split; [reflexivity|]; split; [reflexivity|]);
    try reflexivity.
  exists (c0 :: ts). repeat split. discriminate.
Qed.

(** X3. [updateMessage] makes exactly one call and leaves the store alone. It
    returns exactly when the response is [ok]; an exception of the client
    is thrown again as it is, and a response that is not [ok] becomes an
    error whose message starts with "Slack API error: " and ends with the
    error of the response, or with "Unknown error" when there is none. *)
Theorem updateMessage_outcome (channel ts text : jsstring)
  (s : Store) (tr : list Call) :
  let c := ChatUpdate channel ts text in
  let out := run env (SlackService.updateMessage channel ts text s) tr in
  snd out = tr ++ [c]
  /\ snd (fst out) = s
  /\ match env c tr with
     | Returns r =>
       if Resp.update_ok r then fst (fst out) = Returns tt
       else fst (fst out)
            = Throws (JsError (lit "Slack API error: "
                               ++ match Resp.update_error r with
                                  | Some (c0 :: m) => c0 :: m
                                  | _ => lit "Unknown error"
                                  end))
     | Throws e => fst (fst out) = Throws e
     end.
Proof.
  cbn. destruct (env (ChatUpdate channel ts text) tr) as [r|e] eqn:E; cbn;
    [|repeat split].
  destruct (Resp.update_ok r) eqn:Eok; cbn; repeat split.
Qed.

End SlackServiceFacts.

(** ** The rest of [GitAutomationService] *)

Module GitAutomation.

Definition is_slash (c : N) : bool := (c =? 47)%N.

(** [([^\/]+?)(?:\.git)?$] matched at the head of [s], the group holding
    [taken] so far: the lazy group stops as soon as what is left is ".git"
    or nothing, and takes one more code unit other than "/" if not. *)
Fixpoint capture (taken s : jsstring) : option jsstring :=
  let at_end :=
    match taken with
    | [] => false
    | _ :: _ => Js.eqb s (lit ".git") || Js.eqb s []
    end in
  if at_end then Some taken
  else match s with
       | [] => None
       | c :: s' => if is_slash c then None else capture (taken ++ [c]) s'
       end.

(** [s.match(/\/([^\/]+?)(?:\.git)?$/)]: the group of the leftmost
    match. *)
Fixpoint match_repo (s : jsstring) : option jsstring :=
  match s with
  | [] => None
  | c :: s' =>
    if is_slash c then
      match capture [] s' with
      | Some name => Some name
      | None => match_repo s'
      end
    else match_repo s'
  end.

Definition getRepoName (targetRepoUrl : jsstring) : jsstring :=
  match match_repo targetRepoUrl with
  | Some name => name
  | None => lit "repo"
  end.

Definition getStatus : M Resp.Status :=
  GitAutomationService.with_git (call GitStatus).

End GitAutomation.

(** The exception of an answer. *)
Definition thrown {A} (o : outcome A) : option exn :=
  match o with
  | Returns _ => None
  | Throws e => Some e
  end.

(** The last call of the history [tr] threw [e]. *)
Definition last_threw (env : Env) (tr : list Call) (e : exn) : Prop :=
  exists before c, tr = before ++ [c] /\ thrown (env c before) = Some e.

Definition is_delete (c : Call) : bool :=
  match c with GitDeleteLocalBranch _ _ => true | _ => false end.

Definition is_access (c : Call) : bool :=
  match c with FsAccess _ => true | _ => false end.

(** The calls that follow the creation of the client in
    [initializeRepo]. *)
Definition after_open (c : Call) : bool :=
  match c with GitCheckout _ | GitPull _ _ => true | _ => false end.

Definition clone_calls (host : Host) (config : Config.t) : list Call :=
  [FsMkdir (path_dirname host (Config.repoPath config));
   GitClone (GitAutomationService.getAuthenticatedUrl host config)
     (Config.repoPath config)].

Definition sync_calls (config : Config.t) : list Call :=
  [GitOpen (Config.repoPath config);
   GitCheckout (Config.baseBranch config);
   GitPull (lit "origin") (Config.baseBranch config)].

(** The next answer of the environment: its two cases. *)
Ltac answer env :=
  match goal with
  | |- context [match env ?c ?tr with _ => _ end] =>
    let E := fresh "E" in destruct (env c tr) eqn:E; cbn
  end.

(** The last call threw: the equation of its answer says so. *)
Ltac threw_last :=
  eexists; eexists; split; [reflexivity|];
  match goal with
  | E : _ = Throws _ |- _ => rewrite E; reflexivity
  end.

Section GitServiceFacts.

Variable host : Host.
Variable config : Config.t.
Variable env : Env.

(** X4. Before [initializeRepo] has created the client, [createBranch],
    [commitChanges], [pushBranch], [getCurrentBranch] and [getStatus] throw
    the error "Git not initialized. Call initializeRepo() first.", outside
    of their own [try] blocks, without any call and without touching the
    store. *)
Theorem methods_need_initializeRepo (s : Store) (tr : list Call)
  (options : BranchOptions.t) (message branchName : jsstring)
  (files : list jsstring) :
  git s = None ->
  let refused {A} (m : M A) :=
    run env (m s) tr = (Throws GitAutomationService.not_initialized, s, tr) in
  refused (GitAutomationService.createBranch host config options)
  /\ refused (GitAutomationService.commitChanges message files)
  /\ refused (GitAutomationService.pushBranch branchName)
  /\ refused GitAutomationService.getCurrentBranch
  /\ refused GitAutomation.getStatus
  /\ error_text GitAutomationService.not_initialized
     = lit "Git not initialized. Call initializeRepo() first.".
Proof.
  intros Hg refused. unfold refused.
  unfold GitAutomationService.createBranch, GitAutomationService.commitChanges,
    GitAutomationService.pushBranch, GitAutomationService.getCurrentBranch,
    GitAutomation.getStatus, GitAutomationService.with_git, bind, get.
  cbn [pbind fst snd]. rewrite Hg. repeat split.
Qed.

(** X5. [initializeRepo]. When it returns, the client is set, and the calls
    made are the access to [.git], then the creation of the parent
    directory and the clone with the authenticated URL exactly when that
    access threw, then the opening of the client, the checkout of the base
    branch and the pull. When it throws, the exception is the one of its
    last call, which is never the access; and the client stays set when that
    call is the checkout or the pull. *)
Theorem initializeRepo_outcome (s : Store) (tr : list Call) :
  let out := run env (GitAutomationService.initializeRepo host config s) tr in
  let access :=
    FsAccess (path_join host (Config.repoPath config) (lit ".git")) in
  let ready :=
    mkStore (Some (Config.repoPath config)) (statusMessageTs s) (branchName s) in
  match fst (fst out) with
  | Returns _ =>
    snd (fst out) = ready
    /\ snd out
       = tr ++ [access]
         ++ (match env access tr with
             | Returns _ => []
             | Throws _ => clone_calls host config
             end)
         ++ sync_calls config
  | Throws e =>
    exists before c,
      snd out = before ++ [c]
      /\ thrown (env c before) = Some e
      /\ is_access c = false
      /\ snd (fst out) = (if after_open c then ready else s)
  end.
Proof.
  cbn. unfold clone_calls, sync_calls.
  set (access := FsAccess (path_join host (Config.repoPath config) (lit ".git"))).
  destruct (env access tr) as [[]|e0] eqn:Ea; cbn.
  - repeat (answer env);
      try (rewrite <- !app_assoc; split; reflexivity);
      eexists; eexists; (split; [reflexivity|]);
      match goal with E : _ = Throws _ |- _ => rewrite E end; repeat split.
  - repeat (answer env);
      try (rewrite <- !app_assoc; split; reflexivity);
      eexists; eexists; (split; [reflexivity|]);
      match goal with E : _ = Throws _ |- _ => rewrite E end; repeat split.
Qed.

(** X6. Once the client is set, [createBranch] never throws and leaves the
    store alone. A success carries the generated name, after exactly four
    calls: checkout and pull of the base branch (the one of the options, or
    the configured one), forced deletion of a local branch of that name,
    whose failure is ignored, and creation of the branch. A failure carries
    the text of the exception of the last call, which is never the
    deletion. *)
Theorem createBranch_outcome (s : Store) (tr : list Call) (g : jsstring)
  (options : BranchOptions.t) :
  git s = Some g ->
  let out := run env (GitAutomationService.createBranch host config options s) tr in
  let name := GitAutomationService.generateBranchName host options in
  let base :=
    or_else (BranchOptions.baseBranch options) (Config.baseBranch config) in
  snd (fst out) = s
  /\ exists r,
      fst (fst out) = Returns r
      /\ if GitBranchResult.success r
         then r = GitBranchResult.mk true (Some name) None
              /\ snd out
                 = tr ++ [GitCheckout base; GitPull (lit "origin") base;
                          GitDeleteLocalBranch name true;
                          GitCheckoutLocalBranch name]
         else exists e before c,
             r = GitBranchResult.mk false None (Some (error_text e))
             /\ snd out = before ++ [c]
             /\ thrown (env c before) = Some e
             /\ is_delete c = false.
Proof.
  intros Hg. cbn. rewrite Hg. cbn.
  do 2 (answer env;
        [| split; [reflexivity|]; eexists; split; [reflexivity|]; cbn;
           eexists; eexists; eexists; split; [reflexivity|];
           split; [reflexivity|];
           match goal with E : _ = Throws _ |- _ => rewrite E end;
           repeat split]).
  answer env;
    (answer env;
     [ split; [reflexivity|]; eexists; split; [reflexivity|]; cbn;
       rewrite <- !app_assoc; split; reflexivity
     | split; [reflexivity|]; eexists; split; [reflexivity|]; cbn;
       eexists; eexists; eexists; split; [reflexivity|];
       split; [reflexivity|];
       match goal with E : env (GitCheckoutLocalBranch _) _ = Throws _ |- _ =>
         rewrite E end;
       repeat split ]).
Qed.

(** X7. Once the client is set, [commitChanges] never throws and leaves the
    store alone. It stages first: the listed files, or everything when the
    list is empty. A success with a hash took the four calls stage, status,
    commit, status, and its hash is the one of the commit; a success without
    hash took the three calls stage, status, status, and no commit; in both
    the branch is not the empty string. A failure carries the text of the
    exception of the last call and neither hash nor branch. *)
Theorem commitChanges_outcome (s : Store) (tr : list Call) (g : jsstring)
  (message : jsstring) (files : list jsstring) :
  git s = Some g ->
  let out := run env (GitAutomationService.commitChanges message files s) tr in
  let stage := match files with [] => GitAddAll | _ :: _ => GitAdd files end in
  snd (fst out) = s
  /\ exists r,
      fst (fst out) = Returns r
      /\ match GitCommitResult.success r, GitCommitResult.hash r with
         | true, Some h =>
           exists b committed,
             r = GitCommitResult.mk true (Some h) (Some b) None /\ b <> []
             /\ snd out = tr ++ [stage; GitStatus; GitCommit message; GitStatus]
             /\ env (GitCommit message) (tr ++ [stage; GitStatus])
                = Returns committed
             /\ Resp.commit committed = h
         | true, None =>
           exists b,
             r = GitCommitResult.mk true None (Some b) None /\ b <> []
             /\ snd out = tr ++ [stage; GitStatus; GitStatus]
         | false, _ =>
           exists e,
             r = GitCommitResult.mk false None None (Some (error_text e))
             /\ last_threw env (snd out) e
         end.
Proof.
  intros Hg. unfold last_threw.
  assert (Hb : forall o, or_else o (lit "unknown") <> []).
  { intros [[|c b]|]; discriminate. }
  destruct files as [|f fs]; cbn; rewrite Hg; cbn.
  all: repeat first
         [ rewrite Hg; cbn
         | match goal with
           | |- context [List.length (Resp.files ?a) =? 0] =>
             destruct (List.length (Resp.files a) =? 0) eqn:?; cbn
           end
         | answer env ].
  all: split; [reflexivity|]; eexists; (split; [reflexivity|]); cbn.
  all: first
         [ eexists; split; [reflexivity|]; threw_last
         | eexists; split; [reflexivity|]; split; [apply Hb|];
           rewrite <- !app_assoc; reflexivity
         | eexists; eexists; split; [reflexivity|]; split; [apply Hb|];
           rewrite <- !app_assoc; split; [reflexivity|];
           split; [|reflexivity];
           match goal with
           | E : env (GitCommit _) _ = Returns _ |- _ =>
             rewrite <- !app_assoc in E; exact E
           end ].
Qed.

(** X8. Once the client is set, [pushBranch] never throws and leaves the store
    alone: it returns [true] exactly when the configuration of the
    credential helper and the push both return, and it does not attempt the
    push when the configuration throws. *)
Theorem pushBranch_outcome (s : Store) (tr : list Call) (g : jsstring)
  (branchName : jsstring) :
  git s = Some g ->
  let helper := GitAddConfig (lit "credential.helper") (lit "store") in
  let push := GitPush [lit "--set-upstream"; lit "origin"; branchName] in
  run env (GitAutomationService.pushBranch branchName s) tr
  = match env helper tr with
    | Throws _ => (Returns false, s, tr ++ [helper])
    | Returns _ =>
      match env push (tr ++ [helper]) with
      | Throws _ => (Returns false, s, tr ++ [helper; push])
      | Returns _ => (Returns true, s, tr ++ [helper; push])
      end
    end.
Proof.
  intros Hg. cbn. rewrite Hg. cbn.
  destruct (env (GitAddConfig (lit "credential.helper") (lit "store")) tr);
    cbn; [|reflexivity].
  destruct (env (GitPush [lit "--set-upstream"; lit "origin"; branchName]) _);
    cbn; rewrite <- app_assoc; reflexivity.
Qed.

(** X9. Once the client is set, [getCurrentBranch] asks [git status] once and
    never returns the empty string: a status without current branch gives
    "unknown". It throws only what [git status] throws. *)
Theorem getCurrentBranch_outcome (s : Store) (tr : list Call) (g : jsstring) :
  git s = Some g ->
  let out := run env (GitAutomationService.getCurrentBranch s) tr in
  snd out = tr ++ [GitStatus]
  /\ snd (fst out) = s
  /\ match env GitStatus tr with
     | Returns st =>
       exists b, fst (fst out) = Returns b /\ b <> []
                 /\ (truthy (Resp.current st) = true -> Resp.current st = Some b)
                 /\ (truthy (Resp.current st) = false -> b = lit "unknown")
     | Throws e => fst (fst out) = Throws e
     end.
Proof.
  intros Hg. cbn. rewrite Hg. cbn.
  destruct (env GitStatus tr) as [st|e]; cbn; repeat split.
  destruct (Resp.current st) as [[|c b]|]; cbn; eexists;
    (split; [reflexivity|]); repeat split; discriminate.
Qed.

End GitServiceFacts.

(** ** The name of the repository *)

Definition no_slash (s : jsstring) : bool :=
  forallb (fun c => negb (GitAutomation.is_slash c)) s.

Lemma capture_eq (taken s : jsstring) :
  GitAutomation.capture taken s
  = if match taken with
       | [] => false
       | _ :: _ => Js.eqb s (lit ".git") || Js.eqb s []
       end
    then Some taken
    else match s with
         | [] => None
         | c :: s' =>
           if GitAutomation.is_slash c then None
           else GitAutomation.capture (taken ++ [c]) s'
         end.
Proof. destruct s; reflexivity. Qed.

Lemma capture_some (s taken name : jsstring) :
  GitAutomation.capture taken s = Some name ->
  exists mid rest,
    name = taken ++ mid /\ s = mid ++ rest /\ name <> []
    /\ no_slash mid = true /\ (rest = lit ".git" \/ rest = []).
Proof.
  revert taken. induction s as [|c s IH]; intros taken; rewrite capture_eq.
  - destruct taken as [|t0 taken]; [discriminate|].
    change (Js.eqb [] (lit ".git") || Js.eqb [] []) with true. cbv iota.
    intros [= <-]. exists [], []. rewrite app_nil_r. repeat split; auto.
    discriminate.
  - destruct taken as [|t0 taken].
    + destruct (GitAutomation.is_slash c) eqn:Ec; [discriminate|].
      intros H. apply IH in H. destruct H as [mid [rest [E1 [E2 [E3 [E4 E5]]]]]].
      exists (c :: mid), rest. repeat split; auto.
      * rewrite E2. reflexivity.
      * simpl. rewrite Ec. exact E4.
    + destruct (Js.eqb (c :: s) (lit ".git") || Js.eqb (c :: s) []) eqn:Eend.
      * intros [= <-]. apply orb_true_iff in Eend.
        destruct Eend as [Eend|Eend]; [|discriminate Eend].
        apply eqb_spec in Eend.
        exists [], (c :: s). rewrite app_nil_r. repeat split; auto. discriminate.
      * destruct (GitAutomation.is_slash c) eqn:Ec; [discriminate|].
        intros H. apply IH in H.
        destruct H as [mid [rest [E1 [E2 [E3 [E4 E5]]]]]].
        exists (c :: mid), rest. rewrite <- app_assoc in E1.
        repeat split; auto.
        -- rewrite E2. reflexivity.
        -- simpl. rewrite Ec. exact E4.
Qed.

Lemma match_repo_some (s name : jsstring) :
  GitAutomation.match_repo s = Some name ->
  name <> [] /\ no_slash name = true
  /\ exists before rest,
      s = before ++ lit "/" ++ name ++ rest /\ (rest = lit ".git" \/ rest = []).
Proof.
  induction s as [|c s IH]; simpl; [discriminate|].
  assert (Hrec : GitAutomation.match_repo s = Some name ->
                 name <> [] /\ no_slash name = true
                 /\ exists before rest,
                     c :: s = before ++ lit "/" ++ name ++ rest
                     /\ (rest = lit ".git" \/ rest = [])).
  { intros H. destruct (IH H) as [H1 [H2 [before [rest [H3 H4]]]]].
    repeat split; auto. exists (c :: before), rest. rewrite H3. auto. }
  destruct (GitAutomation.is_slash c) eqn:Ec; [|exact Hrec].
  destruct (GitAutomation.capture [] s) as [n|] eqn:Ecap; [|exact Hrec].
  intros [= ->]. apply capture_some in Ecap.
  destruct Ecap as [mid [rest [E1 [E2 [E3 [E4 E5]]]]]]. simpl in E1. subst mid.
  repeat split; auto. exists [], rest.
  apply N.eqb_eq in Ec. subst c. rewrite E2. auto.
Qed.

(** A slash ahead stops the group. *)
Lemma capture_slash (a b taken : jsstring) :
  GitAutomation.capture taken (a ++ 47%N :: b) = None.
Proof.
  revert taken. induction a as [|c a IH]; intros taken.
  - simpl. destruct taken; reflexivity.
  - assert (Hne : Js.eqb ((c :: a) ++ 47%N :: b) (lit ".git")
                  || Js.eqb ((c :: a) ++ 47%N :: b) [] = false).
    { apply orb_false_intro; [|reflexivity].
      destruct (Js.eqb ((c :: a) ++ 47%N :: b) (lit ".git")) eqn:E; [|reflexivity].
      apply eqb_spec in E.
      assert (Hin : In 47%N ((c :: a) ++ 47%N :: b))
        by (apply in_or_app; right; left; reflexivity).
      rewrite E in Hin. vm_compute in Hin.
      repeat (destruct Hin as [Hin|Hin]; [discriminate Hin|]). contradiction. }
    rewrite capture_eq, Hne. cbn [app]. rewrite IH.
    destruct taken; destruct (GitAutomation.is_slash c); reflexivity.
Qed.

(** The lazy group takes the whole name when ".git" follows it. *)
Lemma capture_before_suffix (name taken : jsstring) :
  no_slash name = true -> taken ++ name <> [] ->
  GitAutomation.capture taken (name ++ lit ".git") = Some (taken ++ name).
Proof.
  revert taken. induction name as [|c name IH]; intros taken Hs Hne.
  - rewrite app_nil_r in *. destruct taken as [|t0 taken]; [congruence|].
    reflexivity.
  - simpl in Hs. apply andb_true_iff in Hs. destruct Hs as [Hc Hs].
    apply negb_true_iff in Hc.
    assert (Hlong : Js.eqb ((c :: name) ++ lit ".git") (lit ".git")
                    || Js.eqb ((c :: name) ++ lit ".git") [] = false).
    { apply orb_false_intro; [|reflexivity].
      destruct (Js.eqb ((c :: name) ++ lit ".git") (lit ".git")) eqn:E;
        [|reflexivity].
      apply eqb_spec in E. apply (f_equal (@List.length N)) in E.
      rewrite length_app in E. simpl in E. vm_compute (List.length (lit ".git")) in E.
      lia. }
    rewrite capture_eq, Hlong. cbn [app].
    rewrite Hc, IH; [| exact Hs | destruct taken; discriminate].
    rewrite <- app_assoc. destruct taken; reflexivity.
Qed.

(** Without that suffix the group takes everything up to the end. *)
Lemma capture_to_end (name taken : jsstring) :
  no_slash name = true -> taken ++ name <> [] ->
  (forall a, name <> a ++ lit ".git") ->
  GitAutomation.capture taken name = Some (taken ++ name).
Proof.
  revert taken. induction name as [|c name IH]; intros taken Hs Hne Hsuf.
  - rewrite app_nil_r in *. destruct taken as [|t0 taken]; [congruence|].
    reflexivity.
  - simpl in Hs. apply andb_true_iff in Hs. destruct Hs as [Hc Hs].
    apply negb_true_iff in Hc.
    assert (Hno : Js.eqb (c :: name) (lit ".git") || Js.eqb (c :: name) [] = false).
    { apply orb_false_intro; [|reflexivity].
      destruct (Js.eqb (c :: name) (lit ".git")) eqn:E; [|reflexivity].
      apply eqb_spec in E. exfalso. apply (Hsuf []). exact E. }
    rewrite capture_eq, Hno, Hc, IH; [| exact Hs | destruct taken; discriminate |].
    + rewrite <- app_assoc. destruct taken; reflexivity.
    + intros a Ha. apply (Hsuf (c :: a)). rewrite Ha. reflexivity.
Qed.

(** The leftmost match starts at the last slash. *)
Lemma match_repo_last_slash (before rest : jsstring) :
  no_slash rest = true ->
  GitAutomation.match_repo (before ++ 47%N :: rest)
  = GitAutomation.capture [] rest.
Proof.
  intros Hs. induction before as [|c before IH]; simpl.
  - destruct (GitAutomation.capture [] rest) eqn:E; [reflexivity|].
    clear E. induction rest as [|r rest IHr]; [reflexivity|].
    simpl in Hs. apply andb_true_iff in Hs. destruct Hs as [Hr Hs].
    apply negb_true_iff in Hr. simpl. rewrite Hr. apply IHr, Hs.
  - rewrite capture_slash, IH. destruct (GitAutomation.is_slash c); reflexivity.
Qed.

Lemma no_slash_app (a b : jsstring) :
  no_slash (a ++ b) = no_slash a && no_slash b.
Proof. apply forallb_app. Qed.

(** X10. The name taken from any URL is never empty and holds no slash; unless
    it is the fallback "repo" of a URL that the expression does not match,
    the URL ends with a slash, that name, and nothing more or ".git". *)
Theorem getRepoName_is_a_segment (url : jsstring) :
  let name := GitAutomation.getRepoName url in
  name <> [] /\ no_slash name = true
  /\ (GitAutomation.match_repo url = None /\ name = lit "repo"
      \/ exists before,
          url = before ++ lit "/" ++ name
          \/ url = before ++ lit "/" ++ name ++ lit ".git").
Proof.
  unfold GitAutomation.getRepoName.
  destruct (GitAutomation.match_repo url) as [name|] eqn:E; cbv zeta.
  - apply match_repo_some in E.
    destruct E as [H1 [H2 [before [rest [H3 [H4|H4]]]]]]; subst rest;
      repeat split; auto; right; exists before.
    + right. exact H3.
    + left. rewrite app_nil_r in H3. exact H3.
  - repeat split; [discriminate | left; split; reflexivity].
Qed.

(** X11. The name of a URL whose last segment is [name], with or without one
    ".git" after it, is [name]; a URL that ends with a slash gives
    "repo". *)
Theorem getRepoName_of_url (before name : jsstring) :
  name <> [] -> no_slash name = true ->
  GitAutomation.getRepoName (before ++ lit "/" ++ name ++ lit ".git") = name
  /\ ((forall a, name <> a ++ lit ".git") ->
      GitAutomation.getRepoName (before ++ lit "/" ++ name) = name)
  /\ GitAutomation.getRepoName (before ++ lit "/" ++ name ++ lit "/")
     = lit "repo".
Proof.
  intros Hne Hs. unfold GitAutomation.getRepoName.
  change (lit "/") with [47%N]. cbn [app].
  repeat split.
  - rewrite match_repo_last_slash
      by (rewrite no_slash_app, Hs; reflexivity).
    rewrite capture_before_suffix; auto.
  - intros Hsuf. rewrite match_repo_last_slash by exact Hs.
    rewrite capture_to_end; auto.
  - replace (before ++ 47%N :: name ++ [47%N])
      with ((before ++ 47%N :: name) ++ 47%N :: [])
      by (rewrite <- app_assoc; reflexivity).
    rewrite match_repo_last_slash by reflexivity. reflexivity.
Qed.

Lemma getRepoName_of_url_witness :
  GitAutomation.getRepoName
    (lit "https://github.com/acme" ++ lit "/" ++ lit "site" ++ lit ".git")
  = lit "site".
Proof.
  refine (proj1 (@getRepoName_of_url (lit "https://github.com/acme") (lit "site") _ _)).
  - discriminate.
  - reflexivity.
Defined.

(** ** More exits of [processIssue] *)

(** The creation of the new branch throws [e]. *)
Definition new_branch_refused (e : exn) : Contract := fun c =>
  match c return outcome (resp c) -> Prop with
  | GitCheckoutLocalBranch _ => fun o => o = Throws e
  | _ => fun _ => True
  end.

(** Staging throws [e]. *)
Definition staging_fails (e : exn) : Contract := fun c =>
  match c return outcome (resp c) -> Prop with
  | GitAdd _ | GitAddAll => fun o => o = Throws e
  | _ => fun _ => True
  end.

(** The checkout of an existing branch throws [e]. *)
Definition checkout_refused (e : exn) : Contract := fun c =>
  match c return outcome (resp c) -> Prop with
  | GitCheckout _ => fun o => o = Throws e
  | _ => fun _ => True
  end.

(** Labelling the pull request throws [e]. *)
Definition labels_fail (e : exn) : Contract := fun c =>
  match c return outcome (resp c) -> Prop with
  | AddLabels _ _ => fun o => o = Throws e
  | _ => fun _ => True
  end.

(** The local copy can be created and opened. *)
Definition clone_works : Contract := fun c =>
  match c return outcome (resp c) -> Prop with
  | FsMkdir _ | GitClone _ _ | GitOpen _ => fun o =>
      match o with Returns _ => True | Throws _ => False end
  | _ => fun _ => True
  end.

Definition new_branch_works : Contract := fun c =>
  match c return outcome (resp c) -> Prop with
  | GitCheckoutLocalBranch _ => fun o =>
      match o with Returns _ => True | Throws _ => False end
  | _ => fun _ => True
  end.

Definition labels_work : Contract := fun c =>
  match c return outcome (resp c) -> Prop with
  | AddLabels _ _ => fun o =>
      match o with Returns _ => True | Throws _ => False end
  | _ => fun _ => True
  end.

(** The deployment tracker answers [deployment]. *)
Definition deployment_gives (deployment : DeploymentResult.t) : Contract := fun c =>
  match c return outcome (resp c) -> Prop with
  | WaitForDeployment _ _ => fun o => o = Returns deployment
  | _ => fun _ => True
  end.

(** The calls that come after the code generation in the pipeline. *)
Definition after_analysis (c : Call) : bool :=
  match c with
  | GitCheckoutLocalBranch _ | GitDeleteLocalBranch _ _
  | GitAdd _ | GitAddAll | GitStatus | GitCommit _
  | GitAddConfig _ _ | GitPush _
  | FormatPRDescription _ _ _ | CreatePullRequest _ _ _ | AddLabels _ _
  | WaitForDeployment _ _ => true
  | _ => false
  end.

Definition is_analysis (c : Call) : bool :=
  match c with AnalyzeAndFix _ _ => true | _ => false end.

Definition is_labels (c : Call) : bool :=
  match c with AddLabels _ _ => true | _ => false end.

(** The deployment is ready: it succeeded and has a URL. *)
Definition preview_of (deployment : DeploymentResult.t) : option jsstring :=
  match DeploymentResult.success deployment, DeploymentResult.url deployment with
  | true, Some (c :: u) => Some (c :: u)
  | _, _ => None
  end.

(** Symbolic execution that also names the exception a contract fixes. *)
Ltac wp_named :=
  repeat (wp_step;
          repeat match goal with
                 | H : Throws _ = Throws _ |- _ => injection H as H; try subst
                 end).

Section MoreExits.

Variable host : Host.
Variable config : Config.t.
Variable env : Env.
Variable job : IssueJob.t.
Variable s : Store.

(** X12. When the code generation answers [success = false], [processIssue]
    returns a [failed] result with the error of the [FixResult] and without
    the [FixResult] itself; the last call is the edit that reports the
    failure, and no call of the later steps is made. *)
Theorem analysis_failure_fails (ts0 : jsstring) (fixResult : FixResult.t) :
  ts0 <> [] ->
  Obeys env (slack_accepts ts0) ->
  Obeys env repo_syncs ->
  Obeys env (analysis_gives fixResult) ->
  FixResult.success fixResult = false ->
  let out := exec env (Processor.processIssue host config job) s in
  result_of out
  = Returns (JobResult.mk (IssueJob.id job) failed None None None None None
               (FixResult.error fixResult))
  /\ Forall (fun c => after_analysis c = false) (trace_of out)
  /\ ends_with
       [AnalyzeAndFix (IssueJob.text job) (agent_config config);
        ChatUpdate (IssueJob.channel job) ts0
          (Processor.Msg.analysis_failed fixResult)]
       (trace_of out).
Proof.
  intros Hts H1 H2 H3 Hs out.
  pose proof (Obeys_both (Obeys_both H1 H2) H3) as HK.
  unfold out, result_of, trace_of, exec.
  apply (@leaves_run _ _ (fun r tr => fst r = _ /\ Forall _ tr /\ ends_with _ tr)
           env HK).
  destruct ts0 as [|t0 ts0']; [congruence|].
  wp; close_leaf.
Qed.

(** X13. When Slack accepts the status post and every edit, the repository
    is prepared and the code generation succeeds with changed files, but
    the creation of the new branch throws, [processIssue] returns a
    [failed] result with the text of the exception and the [FixResult],
    without branch name; the last call is the edit that reports the
    failure, and nothing is staged or committed. *)
Theorem branch_failure_fails (ts0 : jsstring) (fixResult : FixResult.t) (e : exn) :
  ts0 <> [] ->
  Obeys env (slack_accepts ts0) ->
  Obeys env repo_syncs ->
  Obeys env (analysis_gives fixResult) ->
  Obeys env (new_branch_refused e) ->
  FixResult.success fixResult = true ->
  FixResult.filesChanged fixResult <> [] ->
  let out := exec env (Processor.processIssue host config job) s in
  let branchResult := GitBranchResult.mk false None (Some (error_text e)) in
  result_of out
  = Returns (JobResult.mk (IssueJob.id job) failed None None None
               (Some fixResult) None (Some (error_text e)))
  /\ branchName (store_of out) = None
  /\ Forall (fun c => is_stage c || is_commit c = false) (trace_of out)
  /\ ends_with
       [ChatUpdate (IssueJob.channel job) ts0
          (Processor.Msg.branch_failed branchResult)]
       (trace_of out).
Proof.
  intros Hts H1 H2 H3 H4 Hs Hf out branchResult.
  pose proof (Obeys_both (Obeys_both (Obeys_both H1 H2) H3) H4) as HK.
  unfold out, branchResult, result_of, store_of, trace_of, exec.
  apply (@leaves_run _ _
           (fun r tr => fst r = _ /\ branchName (snd r) = None
                        /\ Forall _ tr /\ ends_with _ tr) env HK).
  destruct ts0 as [|t0 ts0']; [congruence|].
  destruct (FixResult.filesChanged fixResult) as [|f fs] eqn:Ef; [congruence|].
  name_branch host job c0 b0 Eb.
  wp_named; close_leaf.
Qed.

(** X14. When Slack accepts the status post and every edit, the repository
    is prepared, the code generation succeeds with changed files and the
    branch is created, but staging throws, [processIssue] returns a
    [failed] result with the text of the exception and the [FixResult];
    the result names no branch although the branch exists, the last two
    calls are the staging and the edit that reports the failure, and
    nothing is committed. *)
Theorem commit_failure_fails (ts0 : jsstring) (fixResult : FixResult.t) (e : exn) :
  ts0 <> [] ->
  Obeys env (slack_accepts ts0) ->
  Obeys env repo_syncs ->
  Obeys env (analysis_gives fixResult) ->
  Obeys env new_branch_works ->
  Obeys env (staging_fails e) ->
  FixResult.success fixResult = true ->
  FixResult.filesChanged fixResult <> [] ->
  let out := exec env (Processor.processIssue host config job) s in
  let commitResult := GitCommitResult.mk false None None (Some (error_text e)) in
  result_of out
  = Returns (JobResult.mk (IssueJob.id job) failed None None None
               (Some fixResult) None (Some (error_text e)))
  /\ branchName (store_of out) = Some (derived_branch_name host (IssueJob.text job))
  /\ Forall not_commit (trace_of out)
  /\ ends_with
       [GitAdd (FixResult.filesChanged fixResult);
        ChatUpdate (IssueJob.channel job) ts0
          (Processor.Msg.commit_failed commitResult)]
       (trace_of out).
Proof.
  intros Hts H1 H2 H3 H4 H5 Hs Hf out commitResult.
  pose proof (Obeys_both (Obeys_both (Obeys_both (Obeys_both H1 H2) H3) H4) H5)
    as HK.
  unfold out, commitResult, derived_branch_name, result_of, store_of, trace_of, exec.
  name_branch host job c0 b0 Eb. rewrite Eb.
  apply (@leaves_run _ _
           (fun r tr => fst r = _ /\ branchName (snd r) = _
                        /\ Forall _ tr /\ ends_with _ tr) env HK).
  destruct ts0 as [|t0 ts0']; [congruence|].
  destruct (FixResult.filesChanged fixResult) as [|f fs] eqn:Ef; [congruence|].
  wp_named; close_leaf.
Qed.

(** X15. When Slack accepts the status post and every edit, the repository
    is prepared, the code generation succeeds with changed files, the
    branch is created, staging, status, commit and push do not throw, the
    description is formatted and the pull request is created with a URL and
    a number other than 0, but its labelling throws, the exception reaches
    the handler: [processIssue] returns a [failed] result with the text of
    the exception and without the URL of the pull request that exists, and
    its last two calls are the labelling and the edit of the status message
    that reports a system error and notes the branch. *)
Theorem labels_failure_fails (ts0 : jsstring) (fixResult : FixResult.t)
  (prResult : GitHubPRResult.t) (e : exn) (n : N) :
  ts0 <> [] ->
  Obeys env (slack_accepts ts0) ->
  Obeys env repo_syncs ->
  Obeys env (analysis_gives fixResult) ->
  Obeys env branch_and_stage_work ->
  Obeys env commit_works ->
  Obeys env push_works ->
  Obeys env (pr_gives prResult) ->
  Obeys env (labels_fail e) ->
  FixResult.success fixResult = true ->
  FixResult.filesChanged fixResult <> [] ->
  GitHubPRResult.success prResult = true ->
  truthy (GitHubPRResult.prUrl prResult) = true ->
  GitHubPRResult.prNumber prResult = Some n ->
  n <> 0%N ->
  let out := exec env (Processor.processIssue host config job) s in
  let name := derived_branch_name host (IssueJob.text job) in
  result_of out
  = Returns (JobResult.mk (IssueJob.id job) failed None None None None None
               (Some (error_text e)))
  /\ ends_with
       [AddLabels n [lit "automated"; lit "claude-fix"];
        ChatUpdate (IssueJob.channel job) ts0
          (Processor.Msg.system_error e (Some name))]
       (trace_of out).
Proof.
  intros Hts H1 H2 H3 H4 H5 H6 H7 H8 Hs Hf Hp Hu Hn Hn0 out name.
  pose proof (Obeys_both (Obeys_both (Obeys_both (Obeys_both (Obeys_both
                (Obeys_both (Obeys_both H1 H2) H3) H4) H5) H6) H7) H8) as HK.
  unfold out, name, derived_branch_name, result_of, trace_of, exec.
  name_branch host job c0 b0 Eb. rewrite Eb.
  apply (@leaves_run _ _ (fun r tr => fst r = _ /\ ends_with _ tr) env HK).
  destruct ts0 as [|t0 ts0']; [congruence|].
  destruct (FixResult.filesChanged fixResult) as [|f fs] eqn:Ef; [congruence|].
  destruct (GitHubPRResult.prUrl prResult) as [[|u0 u]|] eqn:Eu;
    try discriminate Hu.
  apply N.eqb_neq in Hn0.
  wp_named; close_leaf.
Qed.

(** What [processIssue] returns once the pull request exists. *)
Definition completed_with (job : IssueJob.t) (fixResult : FixResult.t)
  (deployment : DeploymentResult.t) (name prUrl : jsstring)
  (r : outcome JobResult.t * Store) (tr : list Call) : Prop :=
  fst r
  = Returns (JobResult.mk (IssueJob.id job) completed (Some name) (Some prUrl)
               (preview_of deployment) (Some fixResult) (Some deployment) None)
  /\ In (WaitForDeployment name 5) tr
  /\ ends_with
       [ReactionsAdd (IssueJob.channel job) (IssueJob.threadTs job)
          (match preview_of deployment with
           | Some _ => lit "white_check_mark"
           | None => lit "warning"
           end)]
       tr.

Lemma In_snoc {A} (x : A) (l : list A) : In x (l ++ [x]).
Proof. apply in_or_app. right. left. reflexivity. Qed.

Lemma In_later {A} (x y : A) (l : list A) : In x l -> In x (l ++ [y]).
Proof. intros H. apply in_or_app. left. exact H. Qed.

Lemma ends_with_snoc (c : Call) (tr : list Call) : ends_with [c] (tr ++ [c]).
Proof. exists tr. reflexivity. Qed.

Lemma track_deployment_completes (ts0 : jsstring) (fixResult : FixResult.t)
  (deployment : DeploymentResult.t) (name prUrl : jsstring)
  (commitResult : GitCommitResult.t) (K : Contract) (s1 : Store) (tr : list Call) :
  (forall c o, K c o -> both (slack_accepts ts0) (deployment_gives deployment) c o) ->
  leaves K (completed_with job fixResult deployment name prUrl)
    (Processor.track_deployment job ts0 fixResult name commitResult prUrl s1) tr.
Proof.
  intros HK. unfold completed_with, preview_of.
  repeat (cbn [fst snd];
          lazymatch goal with
          | |- leaves ?K0 ?Q (call ?c ?s0) ?tr0 =>
            let o := fresh "o" in
            let Ho := fresh "Ho" in
            change (forall o, K0 c o -> Q (o, s0) (tr0 ++ [c]));
            intros o Ho; apply HK in Ho; destruct o; use_contract Ho
          | |- _ => wp_step
          end).
  all: cbn [fst snd]; split; [reflexivity|];
    split; [repeat first [apply In_snoc | apply In_later] | apply ends_with_snoc].
Qed.

(** X16. When Slack accepts the status post and every edit, the repository
    is prepared, the code generation succeeds with changed files, the
    branch is created, staging, status, commit and push do not throw, the
    description is formatted, the pull request is created with a URL, its
    labelling does not throw and the wait for the deployment returns,
    [processIssue] returns a [completed] result with the branch name, the
    URL of the pull request, the [FixResult] and the deployment, whatever
    the deployment answers; the preview URL is present exactly when the
    deployment succeeded with a URL, and the last call is the reaction:
    "white_check_mark" then, "warning" otherwise. *)
Theorem pull_request_completes (ts0 : jsstring) (fixResult : FixResult.t)
  (prResult : GitHubPRResult.t) (deployment : DeploymentResult.t)
  (prUrl : jsstring) :
  ts0 <> [] ->
  Obeys env (slack_accepts ts0) ->
  Obeys env repo_syncs ->
  Obeys env (analysis_gives fixResult) ->
  Obeys env branch_and_stage_work ->
  Obeys env commit_works ->
  Obeys env push_works ->
  Obeys env (pr_gives prResult) ->
  Obeys env labels_work ->
  Obeys env (deployment_gives deployment) ->
  FixResult.success fixResult = true ->
  FixResult.filesChanged fixResult <> [] ->
  GitHubPRResult.success prResult = true ->
  GitHubPRResult.prUrl prResult = Some prUrl ->
  prUrl <> [] ->
  let out := exec env (Processor.processIssue host config job) s in
  let name := derived_branch_name host (IssueJob.text job) in
  result_of out
  = Returns (JobResult.mk (IssueJob.id job) completed (Some name) (Some prUrl)
               (preview_of deployment) (Some fixResult) (Some deployment) None)
  /\ In (WaitForDeployment name 5) (trace_of out)
  /\ ends_with
       [ReactionsAdd (IssueJob.channel job) (IssueJob.threadTs job)
          (match preview_of deployment with
           | Some _ => lit "white_check_mark"
           | None => lit "warning"
           end)]
       (trace_of out).
Proof.
  intros Hts H1 H2 H3 H4 H5 H6 H7 H8 H9 Hs Hf Hp Hu Hu0 out name.
  pose proof (Obeys_both (Obeys_both (Obeys_both (Obeys_both (Obeys_both
                (Obeys_both (Obeys_both (Obeys_both H1 H2) H3) H4) H5) H6) H7)
                H8) H9) as HK.
  unfold out, name, derived_branch_name, result_of, trace_of, exec.
  name_branch host job c0 b0 Eb. rewrite Eb.
  apply (@leaves_run _ _
           (completed_with job fixResult deployment (c0 :: b0) prUrl) env HK).
  destruct ts0 as [|t0 ts0']; [congruence|].
  destruct prUrl as [|u0 u]; [congruence|].
  destruct (FixResult.filesChanged fixResult) as [|f fs] eqn:Ef; [congruence|].
  repeat (cbn [fst snd];
          lazymatch goal with
          | |- leaves _ _ ?p _ =>
            let h := head_of p in
            first [ constr_eq h Processor.track_deployment;
                    apply (@leaves_weaken _ _
                             (completed_with job fixResult deployment
                                (c0 :: b0) (u0 :: u)));
                    [ let Hc := fresh "Hc" in
                      intros [[? | ?] ?] ? Hc;
                      [ exact Hc | destruct Hc as [Hc _]; discriminate Hc ]
                    | apply track_deployment_completes;
                      let H := fresh "H" in
                      intros ? ? H; split; apply H ]
                  | wp_step ]
          | |- _ => wp_step
          end).
Qed.

(** X17. When the local copy is there but the checkout of the base branch
    throws, the repository is not prepared: [processIssue] returns a [failed] result with the text of the
    exception, the code generation is never called, and the last call is
    the edit of the status message that reports a system error, without a
    note about a branch. *)
Theorem repository_failure_fails (ts0 : jsstring) (e : exn) :
  ts0 <> [] ->
  Obeys env (slack_accepts ts0) ->
  Obeys env clone_works ->
  Obeys env (checkout_refused e) ->
  let out := exec env (Processor.processIssue host config job) s in
  result_of out
  = Returns (JobResult.mk (IssueJob.id job) failed None None None None None
               (Some (error_text e)))
  /\ Forall (fun c => is_analysis c || after_analysis c = false) (trace_of out)
  /\ ends_with
       [GitCheckout (Config.baseBranch config);
        ChatUpdate (IssueJob.channel job) ts0 (Processor.Msg.system_error e None)]
       (trace_of out).
Proof.
  intros Hts H1 H2 H3 out.
  pose proof (Obeys_both (Obeys_both H1 H2) H3) as HK.
  unfold out, result_of, trace_of, exec.
  apply (@leaves_run _ _ (fun r tr => fst r = _ /\ Forall _ tr /\ ends_with _ tr)
           env HK).
  destruct ts0 as [|t0 ts0']; [congruence|].
  wp_named; close_leaf.
Qed.

(** X18. When Slack does not accept the first post, [processIssue] makes two
    calls only, the reaction and that post, and returns a [failed] result:
    its error is the text of the exception of the client, or
    "Slack API error: " followed by the error of the response. *)
Theorem first_post_failure_fails :
  let react :=
    ReactionsAdd (IssueJob.channel job) (IssueJob.threadTs job) (lit "eyes") in
  let post :=
    ChatPostMessage (IssueJob.channel job) Processor.Msg.analyzing
      (Some (IssueJob.threadTs job)) in
  let out := exec env (Processor.processIssue host config job) s in
  post_accepted (env post [react]) = false ->
  trace_of out = [react; post]
  /\ store_of out = mkStore (git s) None None
  /\ result_of out
     = Returns (JobResult.mk (IssueJob.id job) failed None None None None None
                  (Some (match env post [react] with
                         | Throws e => error_text e
                         | Returns r =>
                           lit "Slack API error: "
                           ++ or_else (Resp.post_error r) (lit "Unknown error")
                         end))).
Proof.
  intros react post out H. unfold out, result_of, store_of, trace_of, exec.
  cbn. fold react. destruct (env react []); cbn; fold post;
    destruct (env post [react]) as [r|e']; cbn in *;
    try (repeat split; reflexivity);
    (destruct (Resp.post_ok r); cbn in *; [|repeat split; reflexivity]);
    (destruct (Resp.post_ts r) as [[|c0 t0]|]; cbn in *;
       [repeat split; reflexivity | discriminate H | repeat split; reflexivity]).
Qed.

End MoreExits.

(** ** What every run of [processIssue] keeps to *)

(** The steps of the pipeline that act on the repository, on GitHub and on
    the deployment, in the order of the source. *)
Definition milestone (c : Call) : option nat :=
  match c with
  | AnalyzeAndFix _ _ => Some 1
  | GitCheckoutLocalBranch _ => Some 2
  | GitAdd _ | GitAddAll => Some 3
  | GitCommit _ => Some 4
  | GitPush _ => Some 5
  | CreatePullRequest _ _ _ => Some 6
  | AddLabels _ _ => Some 7
  | WaitForDeployment _ _ => Some 8
  | _ => None
  end.

(** The last step reached, as long as every step came after the steps
    before it and none came twice. *)
Definition advance (reached : option nat) (c : Call) : option nat :=
  match reached with
  | None => None
  | Some m =>
    match milestone c with
    | None => Some m
    | Some n => if m <? n then Some n else None
    end
  end.

Definition progress (tr : list Call) : option nat :=
  fold_left advance tr (Some 0).

Definition in_order (tr : list Call) : bool :=
  match progress tr with Some _ => true | None => false end.

(** An edit goes to the message [ts]. *)
Definition edits_target (ts : jsstring) (c : Call) : Prop :=
  match c with
  | ChatUpdate _ ts' _ => ts' = ts
  | _ => True
  end.

Definition no_edit (c : Call) : Prop := is_edit c = false.

(** The history so far: its calls satisfy [P], and its steps are in order,
    the last one being at most [k]. *)
Definition ready (P : Call -> Prop) (k : nat) (tr : list Call) : Prop :=
  Forall P tr /\ exists m, progress tr = Some m /\ m <= k.

Definition bound_after (k : nat) (c : Call) : nat :=
  match milestone c with
  | None => k
  | Some n => n
  end.

Lemma ready_nil (P : Call -> Prop) : ready P 0 [].
Proof. split; [constructor | exists 0; split; [reflexivity | lia]]. Qed.

Lemma ready_snoc (P : Call -> Prop) (k : nat) (tr : list Call) (c : Call) :
  ready P k tr -> P c ->
  (forall n, milestone c = Some n -> k < n) ->
  ready P (bound_after k c) (tr ++ [c]).
Proof.
  intros [HF [m [Hp Hm]]] Hc Hk. split.
  - apply Forall_app. split; [exact HF | constructor; [exact Hc | constructor]].
  - unfold progress, bound_after in *. rewrite fold_left_app, Hp. simpl.
    destruct (milestone c) as [n|]; [|eauto].
    specialize (Hk n eq_refl).
    assert (E : (m <? n) = true) by (apply Nat.ltb_lt; lia).
    rewrite E. eauto.
Qed.

Lemma ready_weaken (P : Call -> Prop) (k k' : nat) (tr : list Call) :
  ready P k tr -> k <= k' -> ready P k' tr.
Proof.
  intros [HF [m [Hp Hm]]] Hk. split; [exact HF|]. exists m. split; [exact Hp | lia].
Qed.

(** The history grew by some calls: each is checked. *)
Ltac ready_chain :=
  first
    [ eassumption
    | apply ready_nil
    | eapply ready_snoc;
      [ ready_chain
      | cbn; first [reflexivity | exact I]
      | cbn; first [ discriminate
                   | let n := fresh "n" in
                     let E := fresh "E" in
                     intros n E; injection E as <-; lia ] ] ].

Ltac still_ready := eapply ready_weaken; [ready_chain | cbn; lia].

(** What a step of the pipeline leaves behind. *)
Definition disciplined (ts : jsstring) (rs : outcome JobResult.t * Store)
  (tr : list Call) : Prop :=
  statusMessageTs (snd rs) = Some ts /\ ready (edits_target ts) 8 tr.

(** A step of the pipeline is run up to the next step, whose lemma is
    [next]. *)
Ltac keep_discipline step next :=
  repeat (cbn [fst snd];
          lazymatch goal with
          | |- leaves _ _ ?p _ =>
            let h := head_of p in
            first [ constr_eq h step;
                    apply next; [cbn; assumption | still_ready]
                  | wp_step ]
          | |- _ => wp_step
          end);
  cbn [fst snd]; (split; [cbn; assumption | still_ready]).

(** What a run leaves behind: one status message at most, which every
    edit went to, and the steps in order. *)
Definition one_message (rs : outcome JobResult.t * Store) (tr : list Call)
  : Prop :=
  match statusMessageTs (snd rs) with
  | Some ts => ready (edits_target ts) 8 tr
  | None => ready no_edit 8 tr
  end.

Section Discipline.

Variable host : Host.
Variable config : Config.t.
Variable env : Env.
Variable job : IssueJob.t.

Lemma track_deployment_disciplined ts fr bn cr url (s : Store) (tr : list Call) :
  statusMessageTs s = Some ts -> ready (edits_target ts) 7 tr ->
  leaves anything (disciplined ts)
    (Processor.track_deployment job ts fr bn cr url s) tr.
Proof. intros Hs Hr. keep_discipline I I. Qed.

Lemma create_pr_disciplined ts fr ty bn cr (s : Store) (tr : list Call) :
  statusMessageTs s = Some ts -> ready (edits_target ts) 5 tr ->
  leaves anything (disciplined ts) (Processor.create_pr job ts fr ty bn cr s) tr.
Proof.
  intros Hs Hr.
  keep_discipline Processor.track_deployment track_deployment_disciplined.
Qed.

Lemma push_disciplined ts fr ty bn cr (s : Store) (tr : list Call) :
  statusMessageTs s = Some ts -> ready (edits_target ts) 4 tr ->
  leaves anything (disciplined ts) (Processor.push job ts fr ty bn cr s) tr.
Proof.
  intros Hs Hr. keep_discipline Processor.create_pr create_pr_disciplined.
Qed.

Lemma commit_disciplined ts fr ty bn (s : Store) (tr : list Call) :
  statusMessageTs s = Some ts -> ready (edits_target ts) 2 tr ->
  leaves anything (disciplined ts) (Processor.commit job ts fr ty bn s) tr.
Proof.
  intros Hs Hr. keep_discipline Processor.push push_disciplined.
Qed.

Lemma branch_disciplined ts fr (s : Store) (tr : list Call) :
  statusMessageTs s = Some ts -> ready (edits_target ts) 1 tr ->
  leaves anything (disciplined ts) (Processor.branch host config job ts fr s) tr.
Proof.
  intros Hs Hr. name_branch host job c0 b0 Eb.
  keep_discipline Processor.commit commit_disciplined.
Qed.

Lemma pipeline_disciplined (g : option jsstring) :
  leaves anything one_message
    (Processor.pipeline host config job (mkStore g None None)) [].
Proof.
  repeat (cbn [fst snd];
          lazymatch goal with
          | |- leaves _ _ (Processor.branch _ _ _ ?ts _ _) _ =>
            apply (@leaves_weaken _ _ (disciplined ts));
            [ let H := fresh "H" in
              intros ? ? H; unfold one_message; rewrite (proj1 H); exact (proj2 H)
            | apply branch_disciplined; [reflexivity | still_ready] ]
          | |- _ => wp_step
          end);
    cbn [fst snd]; unfold one_message; cbn [snd statusMessageTs]; still_ready.
Qed.

Lemma on_error_disciplined (e : exn) (s : Store) (tr : list Call) :
  one_message (Throws e, s) tr ->
  leaves anything one_message (Processor.on_error job e s) tr.
Proof.
  unfold one_message. cbn [snd].
  destruct (statusMessageTs s) as [[|c ts]|] eqn:E; intros H;
    wp; cbn [fst snd]; rewrite E; still_ready.
Qed.

Lemma processIssue_disciplined (s : Store) :
  leaves anything one_message (Processor.processIssue host config job s) [].
Proof.
  repeat (cbn [fst snd];
          lazymatch goal with
          | |- leaves _ _ (try_catch (Processor.pipeline _ _ _) _ _) _ => fail
          | |- _ => wp_step
          end).
  cbn [fst snd].
  apply leaves_try_catch_via with (R := one_message).
  - apply pipeline_disciplined.
  - intros a s' tr' H. exact H.
  - intros e s' tr' H. apply on_error_disciplined. exact H.
Qed.

(** X19. In every run of [processIssue], whatever the services answer, all the
    edits go to one message: the status message whose timestamp the run
    holds at its end; a run that holds none has made no edit. *)
Theorem edits_go_to_the_status_message (s : Store) :
  let out := exec env (Processor.processIssue host config job) s in
  match statusMessageTs (store_of out) with
  | Some ts => Forall (edits_target ts) (trace_of out)
  | None => Forall no_edit (trace_of out)
  end.
Proof.
  intros out.
  pose proof (@leaves_run _ anything one_message env (Obeys_anything env) _ []
                (processIssue_disciplined s)) as H.
  unfold one_message in H. unfold out, store_of, trace_of, exec.
  destruct (statusMessageTs _); exact (proj1 H).
Qed.

(** X20. In every run of [processIssue], whatever the services answer, the code
    generation, the creation of the branch, the staging, the commit, the
    push, the creation of the pull request, its labelling and the wait for
    the deployment are each called at most once, and in that order. *)
Theorem steps_in_order (s : Store) :
  in_order (trace_of (exec env (Processor.processIssue host config job) s)) = true.
Proof.
  pose proof (@leaves_run _ anything one_message env (Obeys_anything env) _ []
                (processIssue_disciplined s)) as H.
  unfold one_message in H. unfold in_order, trace_of, exec.
  destruct (statusMessageTs _); destruct H as [_ [m [Hm _]]]; rewrite Hm;
    reflexivity.
Qed.

End Discipline.

(** ** Whom the calls of [processIssue] address *)

(** A call to Slack goes to the channel of the job, a post and a reaction
    to its thread; the code generation gets the text of the job and the
    path of the local repository. *)
Definition addressed (config : Config.t) (job : IssueJob.t) (c : Call) : Prop :=
  match c with
  | ChatPostMessage channel _ thread_ts =>
    channel = IssueJob.channel job /\ thread_ts = Some (IssueJob.threadTs job)
  | ChatUpdate channel _ _ => channel = IssueJob.channel job
  | ReactionsAdd channel timestamp _ =>
    channel = IssueJob.channel job /\ timestamp = IssueJob.threadTs job
  | AnalyzeAndFix text agent =>
    text = IssueJob.text job
    /\ ClaudeAgentConfig.repoPath agent = Config.repoPath config
  | _ => True
  end.

(** A call that names a branch names the configured base branch, when it
    checks out or pulls, and the branch [name] otherwise; a push sets the
    upstream of [name] on "origin". *)
Definition on_branch (config : Config.t) (name : jsstring) (c : Call) : Prop :=
  match c with
  | GitCheckout b => b = Config.baseBranch config
  | GitPull remote b => remote = lit "origin" /\ b = Config.baseBranch config
  | GitDeleteLocalBranch b force => b = name /\ force = true
  | GitCheckoutLocalBranch b => b = name
  | GitPush args => args = [lit "--set-upstream"; lit "origin"; name]
  | CreatePullRequest b _ _ => b = name
  | WaitForDeployment b _ => b = name
  | _ => True
  end.

Ltac plain_side :=
  cbn; first [exact I | reflexivity | split; reflexivity | assumption].

Section Addressing.

Variable host : Host.
Variable config : Config.t.
Variable env : Env.
Variable job : IssueJob.t.

Lemma processIssue_addressed (s : Store) :
  issues (addressed config job) (Processor.processIssue host config job s).
Proof. repeat issues_step ltac:(plain_side). Qed.

(** X21. In every run of [processIssue], whatever the services answer, every
    message, edit and reaction goes to the channel of the job, every post
    and reaction to its thread, and the code generation is asked about the
    text of the job in the local repository. *)
Theorem calls_address_the_job (s : Store) :
  Forall (addressed config job)
    (trace_of (exec env (Processor.processIssue host config job) s)).
Proof.
  unfold trace_of, exec.
  destruct (@issues_run _ _ env _ [] (processIssue_addressed s)) as [ext [E F]].
  rewrite E. exact F.
Qed.

Lemma commit_on_branch ts fr ty bn (s : Store) :
  issues (on_branch config bn) (Processor.commit job ts fr ty bn s).
Proof. repeat issues_step ltac:(plain_side). Qed.

Lemma on_error_on_branch bn e (s : Store) :
  issues (on_branch config bn) (Processor.on_error job e s).
Proof. repeat issues_step ltac:(plain_side). Qed.

Lemma Forall_snoc {A} (P : A -> Prop) (l : list A) (x : A) :
  Forall P l -> P x -> Forall P (l ++ [x]).
Proof.
  intros H Hx. apply Forall_app. split; [exact H | constructor; [exact Hx | constructor]].
Qed.

(** The calls made so far are allowed. *)
Ltac all_on_branch :=
  repeat first
    [ assumption
    | apply Forall_nil
    | apply Forall_app; split
    | apply Forall_cons; [plain_side|]
    | apply Forall_snoc; [| plain_side] ].

Lemma branch_on_branch ts fr (s : Store) (tr : list Call) (c0 : N) (b0 : jsstring) :
  GitAutomationService.generateBranchName host
    (BranchOptions.mk (Processor.determineBranchType host (IssueJob.text job))
       (substring0 50 (IssueJob.text job)) None) = c0 :: b0 ->
  Forall (on_branch config (c0 :: b0)) tr ->
  leaves anything (fun _ tr' => Forall (on_branch config (c0 :: b0)) tr')
    (Processor.branch host config job ts fr s) tr.
Proof.
  intros Eb Htr.
  repeat (cbn [fst snd];
          lazymatch goal with
          | |- leaves _ _ (Processor.commit _ _ _ _ _ _) _ =>
            apply leaves_of_issues with (P := on_branch config (c0 :: b0));
            [ apply commit_on_branch | intros; all_on_branch ]
          | |- _ => wp_step
          end).
  all: cbn [fst snd]; try rewrite Eb; all_on_branch.
Qed.

Lemma pipeline_on_branch (s : Store) (c0 : N) (b0 : jsstring) :
  GitAutomationService.generateBranchName host
    (BranchOptions.mk (Processor.determineBranchType host (IssueJob.text job))
       (substring0 50 (IssueJob.text job)) None) = c0 :: b0 ->
  leaves anything (fun _ tr' => Forall (on_branch config (c0 :: b0)) tr')
    (Processor.pipeline host config job s) [].
Proof.
  intros Eb.
  repeat (cbn [fst snd];
          lazymatch goal with
          | |- leaves _ _ (Processor.branch _ _ _ _ _ _) _ =>
            apply branch_on_branch; [exact Eb | all_on_branch]
          | |- _ => wp_step
          end).
  all: cbn [fst snd]; all_on_branch.
Qed.

(** X22. In every run of [processIssue], whatever the services answer, the only
    branch that is checked out or pulled is the configured base branch, and
    the only branch that is deleted, created, pushed, proposed in a pull
    request or waited for is the one derived from the text of the job; the
    deletion is forced and the push sets the upstream on "origin". *)
Theorem calls_name_the_derived_branch (s : Store) :
  Forall (on_branch config (derived_branch_name host (IssueJob.text job)))
    (trace_of (exec env (Processor.processIssue host config job) s)).
Proof.
  unfold trace_of, exec, derived_branch_name.
  name_branch host job c0 b0 Eb. rewrite Eb.
  apply (@leaves_run _ anything (fun _ tr => Forall (on_branch config (c0 :: b0)) tr)
           env (Obeys_anything env)).
  repeat (cbn [fst snd];
          lazymatch goal with
          | |- leaves _ _ (try_catch (Processor.pipeline _ _ _) _ _) _ => fail
          | |- _ => wp_step
          end).
  cbn [fst snd].
  apply leaves_try_catch_via
    with (R := fun _ tr => Forall (on_branch config (c0 :: b0)) tr).
  - apply pipeline_on_branch. exact Eb.
  - intros a s' tr' H. exact H.
  - intros e s' tr' H.
    apply leaves_of_issues with (P := on_branch config (c0 :: b0));
      [ apply on_error_on_branch | intros; all_on_branch ].
Qed.

End Addressing.

(** ** [config/index.ts] *)

Module Loader.

(** [process.env], once [dotenv] has read [.env.local]: the variables that
    [loadConfig] reads. *)
Record ProcessEnv := mkProcessEnv {
  SLACK_BOT_TOKEN : option jsstring;
  SLACK_SIGNING_SECRET : option jsstring;
  SLACK_CHANNEL_ID : option jsstring;
  ANTHROPIC_API_KEY : option jsstring;
  GITHUB_TOKEN : option jsstring;
  GITHUB_USERNAME : option jsstring;
  TARGET_REPO_URL : option jsstring;
  BASE_BRANCH : option jsstring;
  LOCAL_REPO_PATH : option jsstring;
  VERCEL_TOKEN : option jsstring;
  VERCEL_PROJECT_ID : option jsstring;
  VERCEL_ORG_ID : option jsstring;
  NODE_ENV : option jsstring;
  LOG_LEVEL : option jsstring;
  FEATURE_FLAGS : option jsstring }.

Inductive NodeEnv := development | production | test.
Inductive LogLevel := debug | info | warn | error.

(** The type [Config] of [types/index.ts], with [N] the type of [nodeEnv]
    and [L] the type of [logLevel]: strings before the schema has parsed
    them, the two enumerations after. *)
Record Slack := mkSlack {
  botToken : jsstring;
  signingSecret : jsstring;
  channelId : jsstring }.

Record Claude := mkClaude {
  apiKey : jsstring }.

Record GitHub := mkGitHub {
  token : jsstring;
  username : jsstring;
  targetRepoUrl : jsstring;
  baseBranch : jsstring;
  localRepoPath : option jsstring }.

Record Deployment := mkDeployment {
  vercelToken : option jsstring;
  vercelProjectId : option jsstring;
  vercelOrgId : option jsstring }.

Record Shape (N L : Type) := mkShape {
  slack : Slack;
  claude : Claude;
  github : GitHub;
  deployment : Deployment;
  nodeEnv : N;
  logLevel : L;
  featureFlags : list jsstring }.

Definition Raw := Shape jsstring jsstring.
Definition t := Shape NodeEnv LogLevel.

(** [s.split(',')]. *)
Fixpoint split_comma (s : jsstring) : list jsstring :=
  match s with
  | [] => [[]]
  | c :: s' =>
    if (c =? 44)%N then [] :: split_comma s'
    else match split_comma s' with
         | piece :: pieces => (c :: piece) :: pieces
         | [] => [[c]]
         end
  end.

(** [s.trim()]. *)
Fixpoint trim_start (s : jsstring) : jsstring :=
  match s with
  | [] => []
  | c :: s' => if is_space c then trim_start s' else c :: s'
  end.

Definition trim (s : jsstring) : jsstring :=
  rev (trim_start (rev (trim_start s))).

Definition rawConfig (env : ProcessEnv) : Raw :=
  mkShape
    (mkSlack (or_else (SLACK_BOT_TOKEN env) [])
             (or_else (SLACK_SIGNING_SECRET env) [])
             (or_else (SLACK_CHANNEL_ID env) []))
    (mkClaude (or_else (ANTHROPIC_API_KEY env) []))
    (mkGitHub (or_else (GITHUB_TOKEN env) [])
              (or_else (GITHUB_USERNAME env) [])
              (or_else (TARGET_REPO_URL env) [])
              (or_else (BASE_BRANCH env) (lit "main"))
              (LOCAL_REPO_PATH env))
    (mkDeployment (VERCEL_TOKEN env) (VERCEL_PROJECT_ID env) (VERCEL_ORG_ID env))
    (or_else (NODE_ENV env) (lit "development"))
    (or_else (LOG_LEVEL env) (lit "info"))
    (match FEATURE_FLAGS env with
     | Some (c :: flags) => map trim (split_comma (c :: flags))
     | _ => []
     end).

(** [z.enum([...])]. *)
Definition parse_nodeEnv (s : jsstring) : option NodeEnv :=
  if Js.eqb s (lit "development") then Some development
  else if Js.eqb s (lit "production") then Some production
  else if Js.eqb s (lit "test") then Some test
  else None.

Definition parse_logLevel (s : jsstring) : option LogLevel :=
  if Js.eqb s (lit "debug") then Some debug
  else if Js.eqb s (lit "info") then Some info
  else if Js.eqb s (lit "warn") then Some warn
  else if Js.eqb s (lit "error") then Some error
  else None.

Section Schema.

(** The check of [z.string().url()] belongs to [zod]. *)
Variable is_url : jsstring -> bool.

(** [ConfigSchema.parse]: [None] stands for the [ZodError]. *)
Definition parse (raw : Raw) : option t :=
  if starts_with (lit "xoxb-") (botToken (slack raw))
     && (1 <=? Js.length (signingSecret (slack raw)))
     && starts_with (lit "C") (channelId (slack raw))
     && starts_with (lit "sk-ant-") (apiKey (claude raw))
     && starts_with (lit "ghp_") (token (github raw))
     && (1 <=? Js.length (username (github raw)))
     && is_url (targetRepoUrl (github raw))
  then
    match parse_nodeEnv (nodeEnv raw), parse_logLevel (logLevel raw) with
    | Some n, Some l =>
      Some (mkShape (slack raw) (claude raw) (github raw) (deployment raw)
              n l (featureFlags raw))
    | _, _ => None
    end
  else None.

Definition invalid_configuration : exn :=
  JsError (lit "Invalid configuration. See errors above.").

Definition loadConfig (env : ProcessEnv) : outcome t :=
  match parse (rawConfig env) with
  | Some config => Returns config
  | None => Throws invalid_configuration
  end.

End Schema.

(** [config.featureFlags.includes(flag)]. *)
Definition isFeatureEnabled (config : t) (flag : jsstring) : bool :=
  existsb (Js.eqb flag) (featureFlags config).

End Loader.

(** A variable of the environment is set to a value that is not empty. *)
Definition given (v : option jsstring) (value : jsstring) : Prop :=
  v = Some value /\ value <> [].

Lemma or_else_given (v : option jsstring) (d : jsstring) :
  or_else v d = d /\ truthy v = false
  \/ given v (or_else v d) /\ truthy v = true.
Proof.
  destruct v as [[|c s]|]; cbn.
  - left. split; reflexivity.
  - right. repeat split. discriminate.
  - left. split; reflexivity.
Qed.

Lemma starts_with_given (p : jsstring) (v : option jsstring) :
  p <> [] -> starts_with p (or_else v []) = true -> given v (or_else v []).
Proof.
  intros Hp H. destruct (or_else_given v []) as [[E _]|[G _]]; [|exact G].
  rewrite E in H. destruct p; [congruence | discriminate H].
Qed.

Lemma length_given (v : option jsstring) :
  (1 <=? Js.length (or_else v [])) = true -> given v (or_else v []).
Proof.
  intros H. destruct (or_else_given v []) as [[E _]|[G _]]; [|exact G].
  rewrite E in H. discriminate H.
Qed.

Lemma or_else_truthy (v : option jsstring) (d value : jsstring) :
  given v value -> or_else v d = value /\ truthy v = true.
Proof. intros [-> H]. destruct value; [congruence | split; reflexivity]. Qed.

(** The pieces between the commas hold no comma. *)
Definition no_comma (s : jsstring) : bool := forallb (fun c => negb (c =? 44)%N) s.

Lemma split_comma_no_comma (s : jsstring) :
  Forall (fun piece => no_comma piece = true) (Loader.split_comma s).
Proof.
  induction s as [|c s IH]; simpl; [repeat constructor|].
  destruct (c =? 44)%N eqn:E; [constructor; [reflexivity | exact IH]|].
  destruct (Loader.split_comma s) as [|piece pieces]; [repeat constructor; simpl; now rewrite E|].
  inversion IH as [|? ? Hp Hps]; subst.
  constructor; [simpl; rewrite E; exact Hp | exact Hps].
Qed.

(** What [trim_start] leaves is the end of the string, and does not start
    with white space. *)
Definition head_ok (s : jsstring) : bool :=
  match s with
  | [] => true
  | c :: _ => negb (is_space c)
  end.

Lemma trim_start_suffix (s : jsstring) :
  exists spaces, s = spaces ++ Loader.trim_start s.
Proof.
  induction s as [|c s [spaces IH]]; simpl; [exists []; reflexivity|].
  destruct (is_space c).
  - exists (c :: spaces). simpl. now rewrite <- IH.
  - exists []. reflexivity.
Qed.

Lemma trim_start_head (s : jsstring) : head_ok (Loader.trim_start s) = true.
Proof.
  induction s as [|c s IH]; simpl; [reflexivity|].
  destruct (is_space c) eqn:E; [exact IH | simpl; now rewrite E].
Qed.

Lemma trim_start_fixed (s : jsstring) :
  head_ok s = true -> Loader.trim_start s = s.
Proof.
  destruct s as [|c s]; simpl; [reflexivity|].
  intros H. apply negb_true_iff in H. now rewrite H.
Qed.

Lemma trim_head (s : jsstring) : head_ok (Loader.trim s) = true.
Proof.
  unfold Loader.trim.
  pose proof (trim_start_head s) as Hy.
  set (y := Loader.trim_start s) in *.
  destruct (trim_start_suffix (rev y)) as [spaces E].
  set (z := Loader.trim_start (rev y)) in *.
  assert (Ey : y = rev z ++ rev spaces).
  { rewrite <- rev_app_distr, <- E, rev_involutive. reflexivity. }
  destruct (rev z) as [|c r] eqn:Ez; [reflexivity|].
  rewrite Ey in Hy. exact Hy.
Qed.

Lemma trim_idempotent (s : jsstring) : Loader.trim (Loader.trim s) = Loader.trim s.
Proof.
  unfold Loader.trim at 1.
  rewrite (@trim_start_fixed _ (trim_head s)).
  unfold Loader.trim. rewrite rev_involutive.
  rewrite (@trim_start_fixed _ (trim_start_head _)). reflexivity.
Qed.

Lemma no_comma_app (a b : jsstring) :
  no_comma (a ++ b) = no_comma a && no_comma b.
Proof. apply forallb_app. Qed.

Lemma no_comma_rev (s : jsstring) : no_comma (rev s) = no_comma s.
Proof.
  induction s as [|c s IH]; [reflexivity|].
  simpl. rewrite no_comma_app, IH. simpl. rewrite andb_true_r. apply andb_comm.
Qed.

Lemma trim_start_no_comma (s : jsstring) :
  no_comma s = true -> no_comma (Loader.trim_start s) = true.
Proof.
  intros H. destruct (trim_start_suffix s) as [spaces E].
  rewrite E, no_comma_app in H. apply andb_true_iff in H. apply H.
Qed.

Lemma trim_no_comma (s : jsstring) :
  no_comma s = true -> no_comma (Loader.trim s) = true.
Proof.
  intros H. unfold Loader.trim.
  rewrite no_comma_rev. apply trim_start_no_comma.
  rewrite no_comma_rev. apply trim_start_no_comma, H.
Qed.

Section LoaderFacts.

Variable is_url : jsstring -> bool.

(** What the schema has checked when it gives a configuration. *)
Lemma parse_some (raw : Loader.Raw) (config : Loader.t) :
  Loader.parse is_url raw = Some config ->
  (starts_with (lit "xoxb-") (Loader.botToken (Loader.slack raw)) = true
   /\ (1 <=? Js.length (Loader.signingSecret (Loader.slack raw))) = true
   /\ starts_with (lit "C") (Loader.channelId (Loader.slack raw)) = true
   /\ starts_with (lit "sk-ant-") (Loader.apiKey (Loader.claude raw)) = true
   /\ starts_with (lit "ghp_") (Loader.token (Loader.github raw)) = true
   /\ (1 <=? Js.length (Loader.username (Loader.github raw))) = true
   /\ is_url (Loader.targetRepoUrl (Loader.github raw)) = true)
  /\ Loader.parse_nodeEnv (Loader.nodeEnv raw) = Some (Loader.nodeEnv config)
  /\ Loader.parse_logLevel (Loader.logLevel raw) = Some (Loader.logLevel config)
  /\ config
     = Loader.mkShape (Loader.slack raw) (Loader.claude raw) (Loader.github raw)
         (Loader.deployment raw) (Loader.nodeEnv config) (Loader.logLevel config)
         (Loader.featureFlags raw).
Proof.
  unfold Loader.parse. intros H.
  destruct (_ && _) eqn:E in H; [|discriminate H].
  destruct (Loader.parse_nodeEnv _) as [n|]; [|discriminate H].
  destruct (Loader.parse_logLevel _) as [l|]; [|discriminate H].
  injection H as <-. cbn.
  repeat (apply andb_true_iff in E; destruct E as [E ?]).
  repeat split; assumption.
Qed.

Lemma loadConfig_returns (env : Loader.ProcessEnv) (config : Loader.t) :
  Loader.loadConfig is_url env = Returns config ->
  Loader.parse is_url (Loader.rawConfig env) = Some config.
Proof.
  unfold Loader.loadConfig.
  destruct (Loader.parse is_url (Loader.rawConfig env)); [|discriminate].
  intros [= ->]. reflexivity.
Qed.

(** X23. A configuration that [loadConfig] returns has passed every check: the
    six required variables are set, not empty, and have their prefixes
    "xoxb-", "C", "sk-ant-" and "ghp_"; the URL of the target repository
    has passed the URL check; and the base branch is the variable
    BASE_BRANCH, or "main" when that is unset or empty, so never empty. *)
Theorem loadConfig_validated (env : Loader.ProcessEnv) (config : Loader.t) :
  Loader.loadConfig is_url env = Returns config ->
  let slack := Loader.slack config in
  let github := Loader.github config in
  (given (Loader.SLACK_BOT_TOKEN env) (Loader.botToken slack)
   /\ starts_with (lit "xoxb-") (Loader.botToken slack) = true)
  /\ given (Loader.SLACK_SIGNING_SECRET env) (Loader.signingSecret slack)
  /\ (given (Loader.SLACK_CHANNEL_ID env) (Loader.channelId slack)
      /\ starts_with (lit "C") (Loader.channelId slack) = true)
  /\ (given (Loader.ANTHROPIC_API_KEY env) (Loader.apiKey (Loader.claude config))
      /\ starts_with (lit "sk-ant-") (Loader.apiKey (Loader.claude config)) = true)
  /\ (given (Loader.GITHUB_TOKEN env) (Loader.token github)
      /\ starts_with (lit "ghp_") (Loader.token github) = true)
  /\ given (Loader.GITHUB_USERNAME env) (Loader.username github)
  /\ is_url (Loader.targetRepoUrl github) = true
  /\ Loader.baseBranch github <> []
  /\ (truthy (Loader.BASE_BRANCH env) = false -> Loader.baseBranch github = lit "main")
  /\ Loader.localRepoPath github = Loader.LOCAL_REPO_PATH env.
Proof.
  intros H. apply loadConfig_returns, parse_some in H.
  destruct H as [[C1 [C2 [C3 [C4 [C5 [C6 C7]]]]]] [_ [_ ->]]]. cbn in *.
  pose proof (starts_with_given (p := lit "xoxb-") _ ltac:(discriminate) C1) as G1.
  pose proof (length_given _ C2) as G2.
  pose proof (starts_with_given (p := lit "C") _ ltac:(discriminate) C3) as G3.
  pose proof (starts_with_given (p := lit "sk-ant-") _ ltac:(discriminate) C4) as G4.
  pose proof (starts_with_given (p := lit "ghp_") _ ltac:(discriminate) C5) as G5.
  pose proof (length_given _ C6) as G6.
  repeat split; try assumption;
    try (first [ apply G1 | apply G2 | apply G3 | apply G4 | apply G5 | apply G6 ]).
  - intros C. destruct (Loader.BASE_BRANCH env) as [[|c b]|];
      vm_compute in C; discriminate C.
  - destruct (Loader.BASE_BRANCH env) as [[|c b]|]; try reflexivity; discriminate.
Qed.

(** X24. [loadConfig] fails fast: when one of the six required variables is
    unset or empty, or NODE_ENV or LOG_LEVEL is set to a value outside of
    its enumeration, it throws; and whenever it throws, it throws the error
    "Invalid configuration. See errors above.". *)
Theorem loadConfig_fails_fast (env : Loader.ProcessEnv) :
  (truthy (Loader.SLACK_BOT_TOKEN env)
   && truthy (Loader.SLACK_SIGNING_SECRET env)
   && truthy (Loader.SLACK_CHANNEL_ID env)
   && truthy (Loader.ANTHROPIC_API_KEY env)
   && truthy (Loader.GITHUB_TOKEN env)
   && truthy (Loader.GITHUB_USERNAME env) = false
   \/ (exists v, given (Loader.NODE_ENV env) v /\ Loader.parse_nodeEnv v = None)
   \/ (exists v, given (Loader.LOG_LEVEL env) v /\ Loader.parse_logLevel v = None)
   -> Loader.loadConfig is_url env = Throws Loader.invalid_configuration)
  /\ (forall e, Loader.loadConfig is_url env = Throws e ->
                e = JsError (lit "Invalid configuration. See errors above.")).
Proof.
  split.
  - intros H. destruct (Loader.loadConfig is_url env) as [config|e] eqn:E.
    + exfalso. apply loadConfig_returns, parse_some in E.
      destruct E as [[C1 [C2 [C3 [C4 [C5 [C6 C7]]]]]] [Hn [Hl _]]]. cbn in *.
      destruct H as [H | [[v [G Hv]] | [v [G Hv]]]].
      * apply starts_with_given in C1; [|discriminate].
        apply length_given in C2.
        apply starts_with_given in C3; [|discriminate].
        apply starts_with_given in C4; [|discriminate].
        apply starts_with_given in C5; [|discriminate].
        apply length_given in C6.
        rewrite (proj2 (@or_else_truthy _ [] _ C1)), (proj2 (@or_else_truthy _ [] _ C2)),
          (proj2 (@or_else_truthy _ [] _ C3)), (proj2 (@or_else_truthy _ [] _ C4)),
          (proj2 (@or_else_truthy _ [] _ C5)), (proj2 (@or_else_truthy _ [] _ C6)) in H.
        discriminate H.
      * rewrite (proj1 (@or_else_truthy _ (lit "development") _ G)) in Hn. congruence.
      * rewrite (proj1 (@or_else_truthy _ (lit "info") _ G)) in Hl. congruence.
    + unfold Loader.loadConfig in E.
      destruct (Loader.parse is_url (Loader.rawConfig env)); [discriminate E|].
      injection E as <-. reflexivity.
  - unfold Loader.loadConfig. intros e.
    destruct (Loader.parse is_url (Loader.rawConfig env)); [discriminate|].
    intros [= <-]. reflexivity.
Qed.

(** X25. The feature flags of a configuration that [loadConfig] returns are the
    trimmed pieces between the commas of FEATURE_FLAGS: a flag is enabled
    exactly when FEATURE_FLAGS is set, not empty, and the flag is the trimmed
    text of one of its pieces; so an enabled flag holds no comma and neither
    starts nor ends with white space, and no flag is enabled when the
    variable is unset or empty. *)
Theorem feature_flags_are_trimmed_pieces (env : Loader.ProcessEnv)
  (config : Loader.t) (flag : jsstring) :
  Loader.loadConfig is_url env = Returns config ->
  (Loader.isFeatureEnabled config flag = true
   <-> exists raw piece,
        given (Loader.FEATURE_FLAGS env) raw
        /\ In piece (Loader.split_comma raw)
        /\ Loader.trim piece = flag)
  /\ (Loader.isFeatureEnabled config flag = true ->
      Loader.trim flag = flag /\ no_comma flag = true).
Proof.
  intros H. apply loadConfig_returns, parse_some in H.
  destruct H as [_ [_ [_ ->]]]. unfold Loader.isFeatureEnabled. cbn.
  assert (Hiff : existsb (Js.eqb flag)
                   match Loader.FEATURE_FLAGS env with
                   | Some (c :: flags) => map Loader.trim (Loader.split_comma (c :: flags))
                   | _ => []
                   end = true
                 <-> exists raw piece,
                     given (Loader.FEATURE_FLAGS env) raw
                     /\ In piece (Loader.split_comma raw)
                     /\ Loader.trim piece = flag).
  { rewrite existsb_exists. split.
    - intros [f [Hin Hf]]. apply eqb_spec in Hf. subst f.
      destruct (Loader.FEATURE_FLAGS env) as [[|c flags]|]; try contradiction.
      apply in_map_iff in Hin. destruct Hin as [piece [Hp Hin]].
      exists (c :: flags), piece. repeat split; auto. discriminate.
    - intros [raw [piece [[E Hne] [Hin Hp]]]]. rewrite E.
      destruct raw as [|c flags]; [congruence|].
      exists flag. split; [|apply eqb_spec; reflexivity].
      apply in_map_iff. exists piece. split; assumption. }
  split; [exact Hiff|].
  intros Hen. apply Hiff in Hen. destruct Hen as [raw [piece [_ [Hin <-]]]].
  split; [apply trim_idempotent|].
  apply trim_no_comma.
  pose proof (split_comma_no_comma raw) as Hall.
  rewrite Forall_forall in Hall. apply Hall, Hin.
Qed.

End LoaderFacts.

(** An environment for the examples, where a URL is one that starts with
    "https://". *)
Definition process_env0 : Loader.ProcessEnv :=
  Loader.mkProcessEnv
    (Some (lit "xoxb-1-abc")) (Some (lit "s3cret")) (Some (lit "C0123"))
    (Some (lit "sk-ant-key")) (Some (lit "ghp_token")) (Some (lit "octo"))
    (Some (lit "https://github.com/acme/site.git")) None None None None None
    (Some (lit "production")) None (Some (lit "rich-ui, dry-run ,")).

Definition loaded0 : Loader.t :=
  Loader.mkShape
    (Loader.mkSlack (lit "xoxb-1-abc") (lit "s3cret") (lit "C0123"))
    (Loader.mkClaude (lit "sk-ant-key"))
    (Loader.mkGitHub (lit "ghp_token") (lit "octo")
       (lit "https://github.com/acme/site.git") (lit "main") None)
    (Loader.mkDeployment None None None)
    Loader.production Loader.info
    [lit "rich-ui"; lit "dry-run"; []].

Example loadConfig_example :
  Loader.loadConfig (starts_with (lit "https://")) process_env0 = Returns loaded0.
Proof. vm_compute. reflexivity. Qed.

Lemma loadConfig_validated_witness :
  Loader.baseBranch (Loader.github loaded0) = lit "main".
Proof.
  refine (proj1 (proj2 (proj2 (proj2 (proj2 (proj2 (proj2 (proj2 (proj2
           (@loadConfig_validated (starts_with (lit "https://")) process_env0
              loaded0 _))))))))) _).
  - vm_compute. reflexivity.
  - reflexivity.
Defined.

Lemma loadConfig_fails_fast_witness :
  Loader.loadConfig (starts_with (lit "https://"))
    (Loader.mkProcessEnv
       (Some (lit "xoxb-1-abc")) (Some (lit "s3cret")) (Some (lit "C0123"))
       (Some (lit "sk-ant-key")) None (Some (lit "octo"))
       (Some (lit "https://github.com/acme/site.git")) None None None None None
       None None None)
  = Throws Loader.invalid_configuration.
Proof.
  refine (proj1 (@loadConfig_fails_fast (starts_with (lit "https://")) _) _).
  left. reflexivity.
Defined.

Lemma feature_flags_are_trimmed_pieces_witness :
  Loader.trim (lit "dry-run") = lit "dry-run" /\ no_comma (lit "dry-run") = true.
Proof.
  refine (proj2 (@feature_flags_are_trimmed_pieces (starts_with (lit "https://"))
                   process_env0 loaded0 (lit "dry-run") _) _).
  - vm_compute. reflexivity.
  - vm_compute. reflexivity.
Defined.

(** ** Title and commit message *)

(** X26. The title of a pull request has at most 86 code units, whatever the
    text and the type: a text of at most 70 code units is kept whole after
    the prefix, and a longer one is cut after 70 code units and followed by
    "...". *)
Theorem generatePRTitle_bounded (issueText type : jsstring) :
  let title := Processor.generatePRTitle issueText type in
  Js.length title <= 86
  /\ exists prefix,
      In prefix [lit "🐛 Fix:"; lit "✨ Feature:"; lit "♻️ Refactor:"]
      /\ title
         = prefix ++ lit " "
           ++ (if Js.length issueText <=? 70 then issueText
               else substring0 70 issueText ++ lit "...").
Proof.
  cbv zeta. unfold Processor.generatePRTitle.
  set (prefix := if Js.eqb type (lit "fix") then lit "🐛 Fix:"
                 else if Js.eqb type (lit "feat") then lit "✨ Feature:"
                 else lit "♻️ Refactor:").
  assert (Hp : In prefix [lit "🐛 Fix:"; lit "✨ Feature:"; lit "♻️ Refactor:"]).
  { unfold prefix. destruct (Js.eqb type (lit "fix")); [left; reflexivity|].
    destruct (Js.eqb type (lit "feat")); [right; left; reflexivity|].
    right; right; left; reflexivity. }
  assert (Hl : Js.length prefix <= 12).
  { destruct Hp as [<-|[<-|[<-|[]]]]; vm_compute; lia. }
  unfold Js.length, substring0 in *.
  destruct (Nat.leb_spec (List.length issueText) 70) as [Hle|Hgt].
  - assert (E : (70 <? List.length issueText) = false) by (apply Nat.ltb_ge; lia).
    rewrite E, firstn_all2 by lia. split.
    + rewrite !length_app. change (List.length (lit " ")) with 1. simpl. lia.
    + exists prefix. split; [exact Hp|]. rewrite app_nil_r. reflexivity.
  - assert (E : (70 <? List.length issueText) = true) by (apply Nat.ltb_lt; lia).
    rewrite E. split.
    + rewrite !length_app, length_firstn.
      change (List.length (lit " ")) with 1. change (List.length (lit "...")) with 3.
      lia.
    + exists prefix. split; [exact Hp|]. reflexivity.
Qed.

(** A line of a joined list is surrounded by line feeds or by the ends of
    the text. *)
Lemma join_line (g : jsstring -> jsstring) (x : jsstring) (xs : list jsstring) :
  In x xs ->
  exists before after,
    join nl (map g xs) = before ++ g x ++ after
    /\ (before = [] \/ exists b, before = b ++ nl)
    /\ (after = [] \/ exists a, after = nl ++ a).
Proof.
  induction xs as [|y ys IH]; [contradiction|].
  intros [->|Hin].
  - destruct ys as [|z zs].
    + exists [], []. simpl. rewrite app_nil_r. auto.
    + exists [], (nl ++ join nl (map g (z :: zs))). simpl. split; [reflexivity|].
      split; [left; reflexivity | right; eexists; reflexivity].
  - destruct (IH Hin) as [before [after [E [Hb Ha]]]].
    destruct ys as [|z zs]; [contradiction|].
    exists (g y ++ nl ++ before), after.
    split; [|split; [|exact Ha]].
    + change (join nl (map g (y :: z :: zs)))
        with (g y ++ nl ++ join nl (map g (z :: zs))).
      rewrite E, <- !app_assoc. reflexivity.
    + right. destruct Hb as [->|[b ->]].
      * exists (g y). rewrite app_nil_r. reflexivity.
      * exists (g y ++ nl ++ b). rewrite <- !app_assoc. reflexivity.
Qed.

(** X27. The commit message starts with "🤖 Auto-fix: " and the first 50 code
    units of the issue text, holds the solution, names every changed file
    on a line of its own, after "- ", and ends with the line
    "Co-authored-by: Claude <noreply@anthropic.com>". *)
Theorem generateCommitMessage_lists_files (issueText solution : jsstring)
  (filesChanged : list jsstring) :
  let message := Processor.generateCommitMessage issueText solution filesChanged in
  starts_with (lit "🤖 Auto-fix: " ++ substring0 50 issueText) message = true
  /\ contains (nl ++ nl ++ solution ++ nl ++ nl ++ lit "Files changed:" ++ nl) message
  /\ (forall f, In f filesChanged ->
                contains (nl ++ lit "- " ++ f ++ nl) message)
  /\ exists before,
      message = before ++ nl
                ++ lit "Co-authored-by: Claude <noreply@anthropic.com>".
Proof.
  cbv zeta. unfold Processor.generateCommitMessage, Processor.bullet_lines.
  set (preview := substring0 50 issueText
                  ++ (if 50 <? Js.length issueText then lit "..." else [])).
  set (tail := lit "

---
🤖 Generated by Claude AutoFix Bot
Co-authored-by: Claude <noreply@anthropic.com>").
  assert (Et : tail = nl ++ nl ++ lit "---" ++ nl
                      ++ lit "🤖 Generated by Claude AutoFix Bot" ++ nl
                      ++ lit "Co-authored-by: Claude <noreply@anthropic.com>")
    by (vm_compute; reflexivity).
  assert (Eh : lit "

Files changed:
" = nl ++ nl ++ lit "Files changed:" ++ nl) by (vm_compute; reflexivity).
  assert (En : lit "

" = nl ++ nl) by (vm_compute; reflexivity).
  rewrite Eh, En.
  split; [|split; [|split]].
  - apply starts_with_spec. unfold preview. eexists.
    rewrite <- !app_assoc. reflexivity.
  - exists (lit "🤖 Auto-fix: " ++ preview). eexists.
    rewrite <- !app_assoc. reflexivity.
  - intros f Hf.
    destruct (join_line (fun f => lit "- " ++ f) f filesChanged Hf)
      as [before [after [E [Hb Ha]]]].
    match goal with
    | |- context [?lines ++ tail] =>
      replace lines with (before ++ (lit "- " ++ f) ++ after)
        by (symmetry; exact E)
    end.
    unfold contains.
    destruct Hb as [->|[b ->]]; destruct Ha as [->|[a ->]].
    + exists (lit "🤖 Auto-fix: " ++ preview ++ nl ++ nl ++ solution ++ nl ++ nl
              ++ lit "Files changed:").
      eexists. rewrite Et, <- !app_assoc, ?app_nil_l. reflexivity.
    + exists (lit "🤖 Auto-fix: " ++ preview ++ nl ++ nl ++ solution ++ nl ++ nl
              ++ lit "Files changed:").
      eexists. rewrite <- !app_assoc, ?app_nil_l. reflexivity.
    + exists (lit "🤖 Auto-fix: " ++ preview ++ nl ++ nl ++ solution ++ nl ++ nl
              ++ lit "Files changed:" ++ nl ++ b).
      eexists. rewrite Et, <- !app_assoc, ?app_nil_l. reflexivity.
    + exists (lit "🤖 Auto-fix: " ++ preview ++ nl ++ nl ++ solution ++ nl ++ nl
              ++ lit "Files changed:" ++ nl ++ b).
      eexists. rewrite <- !app_assoc, ?app_nil_l. reflexivity.
  - rewrite Et. eexists. rewrite !app_assoc. reflexivity.
Qed.

(** ** More concrete runs *)

Definition branch_options0 : BranchOptions.t :=
  BranchOptions.mk fix_ (lit "Fix the typo") None.

Lemma methods_need_initializeRepo_witness :
  run (scripted all_well) (GitAutomationService.pushBranch (lit "fix/x") store0) []
  = (Throws GitAutomationService.not_initialized, store0, []).
Proof.
  exact (proj1 (proj2 (proj2
           (@methods_need_initializeRepo ascii_host config0 (scripted all_well)
              store0 [] branch_options0 (lit "message") (lit "fix/x") []
              eq_refl)))).
Defined.

Lemma createBranch_outcome_witness :
  snd (fst (run (scripted all_well)
              (GitAutomationService.createBranch ascii_host config0 branch_options0
                 store_ready) []))
  = store_ready.
Proof.
  exact (proj1 (@createBranch_outcome ascii_host config0 (scripted all_well)
                  store_ready [] (lit "/tmp/claude-autofix-repos/site")
                  branch_options0 eq_refl)).
Defined.

Lemma commitChanges_outcome_witness :
  snd (fst (run (scripted all_well)
              (GitAutomationService.commitChanges (lit "message") [lit "README.md"]
                 store_ready) []))
  = store_ready.
Proof.
  exact (proj1 (@commitChanges_outcome (scripted all_well) store_ready []
                  (lit "/tmp/claude-autofix-repos/site") (lit "message")
                  [lit "README.md"] eq_refl)).
Defined.

Lemma pushBranch_outcome_witness :
  run (scripted push_refused)
    (GitAutomationService.pushBranch (lit "fix/x") store_ready) []
  = (Returns false, store_ready,
     [GitAddConfig (lit "credential.helper") (lit "store");
      GitPush [lit "--set-upstream"; lit "origin"; lit "fix/x"]]).
Proof.
  pose proof (@pushBranch_outcome (scripted push_refused) store_ready []
                (lit "/tmp/claude-autofix-repos/site") (lit "fix/x") eq_refl) as H.
  vm_compute in H. vm_compute. exact H.
Defined.

Lemma getCurrentBranch_outcome_witness :
  snd (run (scripted all_well) (GitAutomationService.getCurrentBranch store_ready) [])
  = [] ++ [GitStatus].
Proof.
  exact (proj1 (@getCurrentBranch_outcome (scripted all_well) store_ready []
                  (lit "/tmp/claude-autofix-repos/site") eq_refl)).
Defined.

Lemma analysis_failure_fails_witness :
  result_of (exec (scripted (with_analysis (Returns no_intent)))
               (Processor.processIssue ascii_host config0 job0) store0)
  = Returns (JobResult.mk (IssueJob.id job0) failed None None None None None
               (FixResult.error no_intent)).
Proof.
  refine (proj1 (@analysis_failure_fails ascii_host config0 _ job0 store0
                   (lit "1700000001.000200") no_intent _ _ _ _ _)).
  - discriminate.
  - obeys.
  - obeys.
  - obeys.
  - reflexivity.
Defined.

(** The branch cannot be created. *)
Definition branch_exists : exn :=
  JsError (lit "fatal: a branch named 'fix/fix-the-typo-in-readmemd' already exists").

Definition branch_refused : Env := fun c tr =>
  match c return outcome (resp c) with
  | GitCheckoutLocalBranch _ => Throws branch_exists
  | c' => scripted all_well c' tr
  end.

Lemma branch_failure_fails_witness :
  result_of (exec branch_refused
               (Processor.processIssue ascii_host config0 job0) store0)
  = Returns (JobResult.mk (IssueJob.id job0) failed None None None
               (Some fix0) None (Some (error_text branch_exists))).
Proof.
  refine (proj1 (@branch_failure_fails ascii_host config0 _ job0 store0
                   (lit "1700000001.000200") fix0 branch_exists _ _ _ _ _ _ _)).
  - discriminate.
  - obeys.
  - obeys.
  - obeys.
  - obeys.
  - reflexivity.
  - discriminate.
Defined.

(** The index is locked. *)
Definition index_locked : exn :=
  JsError (lit "fatal: Unable to create '.git/index.lock': File exists.").

Definition staging_refused : Env := fun c tr =>
  match c return outcome (resp c) with
  | GitAdd _ | GitAddAll => Throws index_locked
  | c' => scripted all_well c' tr
  end.

Lemma commit_failure_fails_witness :
  result_of (exec staging_refused
               (Processor.processIssue ascii_host config0 job0) store0)
  = Returns (JobResult.mk (IssueJob.id job0) failed None None None
               (Some fix0) None (Some (error_text index_locked))).
Proof.
  refine (proj1 (@commit_failure_fails ascii_host config0 _ job0 store0
                   (lit "1700000001.000200") fix0 index_locked _ _ _ _ _ _ _ _)).
  - discriminate.
  - obeys.
  - obeys.
  - obeys.
  - obeys.
  - obeys.
  - reflexivity.
  - discriminate.
Defined.

(** GitHub refuses the labels. *)
Definition labels_refused_error : exn := JsError (lit "Resource not accessible").

Definition labels_refused : Env := fun c tr =>
  match c return outcome (resp c) with
  | AddLabels _ _ => Throws labels_refused_error
  | c' => scripted all_well c' tr
  end.

Lemma labels_failure_fails_witness :
  result_of (exec labels_refused
               (Processor.processIssue ascii_host config0 job0) store0)
  = Returns (JobResult.mk (IssueJob.id job0) failed None None None None None
               (Some (error_text labels_refused_error))).
Proof.
  refine (proj1 (@labels_failure_fails ascii_host config0 _ job0 store0
                   (lit "1700000001.000200") fix0 pr0 labels_refused_error 12%N
                   _ _ _ _ _ _ _ _ _ _ _ _ _ _ _)).
  - discriminate.
  - obeys.
  - obeys.
  - obeys.
  - obeys.
  - obeys.
  - obeys.
  - obeys.
  - obeys.
  - reflexivity.
  - discriminate.
  - reflexivity.
  - reflexivity.
  - reflexivity.
  - discriminate.
Defined.

Lemma pull_request_completes_witness :
  result_of (exec (scripted all_well)
               (Processor.processIssue ascii_host config0 job0) store0)
  = Returns (JobResult.mk (IssueJob.id job0) completed
               (Some (derived_branch_name ascii_host (IssueJob.text job0)))
               (Some (lit "https://github.com/acme/site/pull/12"))
               (preview_of deployment0) (Some fix0) (Some deployment0) None).
Proof.
  refine (proj1 (@pull_request_completes ascii_host config0 _ job0 store0
                   (lit "1700000001.000200") fix0 pr0 deployment0
                   (lit "https://github.com/acme/site/pull/12")
                   _ _ _ _ _ _ _ _ _ _ _ _ _ _ _)).
  - discriminate.
  - obeys.
  - obeys.
  - obeys.
  - obeys.
  - obeys.
  - obeys.
  - obeys.
  - obeys.
  - obeys.
  - reflexivity.
  - discriminate.
  - reflexivity.
  - reflexivity.
  - discriminate.
Defined.

Lemma repository_failure_fails_witness :
  result_of (exec checkout_fails
               (Processor.processIssue ascii_host config0 job0) store0)
  = Returns (JobResult.mk (IssueJob.id job0) failed None None None None None
               (Some (error_text (JsError (lit "pathspec 'main' did not match"))))).
Proof.
  refine (proj1 (@repository_failure_fails ascii_host config0 _ job0 store0
                   (lit "1700000001.000200")
                   (JsError (lit "pathspec 'main' did not match")) _ _ _ _)).
  - discriminate.
  - obeys.
  - obeys.
  - obeys.
Defined.

Lemma first_post_failure_fails_witness :
  trace_of (exec (scripted post_refused)
              (Processor.processIssue ascii_host config0 job0) store0)
  = [ReactionsAdd (IssueJob.channel job0) (IssueJob.threadTs job0) (lit "eyes");
     ChatPostMessage (IssueJob.channel job0) Processor.Msg.analyzing
       (Some (IssueJob.threadTs job0))].
Proof.
  exact (proj1 (@first_post_failure_fails ascii_host config0 (scripted post_refused)
                  job0 store0 eq_refl)).
Defined.
